(** * EMDR page: settings and session notes kept in the browser's local storage

    A shallow embedding of the state logic of [src/pages/index.tsx] (the
    [EMDRApp] component): the stepper handler [incrementValue], the note
    handlers [handleAddNote] and [handleDeleteNote], the persistence routines
    [saveAppState] and [loadAppState], the start-up effect with its legacy
    fallback, the debounced save effect with the browser's timers, the
    handlers of the note form, and the cell contents on which the render of
    the component throws.

    JavaScript values are modelled dynamically (the TypeScript annotations
    are erased at run time, and [JSON.parse] returns whatever the stored text
    denotes); numbers are IEEE 754 binary64 values ([spec_float] at
    precision 53), strings are sequences of code units below 256. *)

From Stdlib Require Import ZArith Ascii Floats.SpecFloat.
From stdpp Require Import base option list strings gmap pretty.

Local Open Scope Z_scope.

(** ** Numbers *)

Module Num.

(** A JavaScript number. *)
Definition number : Type := spec_float.

Definition prec : Z := 53.
Definition emax : Z := 1024.

Definition NaN : number := S754_nan.
Definition Infinity : number := S754_infinity false.

(** The number denoted by the literal [m * 2^e]. *)
Definition lit (m e : Z) : number := binary_normalize prec emax m e false.

Definition of_Z (z : Z) : number := lit z 0.

Definition isNaN (x : number) : bool :=
  match x with S754_nan => true | _ => false end.

Definition isFinite (x : number) : bool :=
  match x with S754_zero _ | S754_finite _ _ _ => true | _ => false end.

Definition isNegZero (x : number) : bool :=
  match x with S754_zero true => true | _ => false end.

(** [x + y] on numbers. *)
Definition add (x y : number) : number := SFadd prec emax x y.

(** [Math.max(x, y)]: NaN if either argument is NaN, and +0 counts as
    larger than -0. *)
Definition Math_max (x y : number) : number :=
  match SFcompare x y with
  | None => NaN
  | Some Lt => y
  | Some Gt => x
  | Some Eq => if isNegZero x then y else x
  end.

(** [Math.min(x, y)]: NaN if either argument is NaN, and -0 counts as
    smaller than +0. *)
Definition Math_min (x y : number) : number :=
  match SFcompare x y with
  | None => NaN
  | Some Lt => x
  | Some Gt => y
  | Some Eq => if isNegZero x then x else y
  end.

(** [lo <= x && x <= hi]; false when [x] is NaN. *)
Definition within (lo hi x : number) : bool := SFleb lo x && SFleb x hi.

End Num.

Import Num.

(** ** The stepper

<<
  const incrementValue = (setter, value, increment, min = 1, max = 100) => {
    setter(Math.min(max, Math.max(min, value + increment)))
  }
>>
    The function returns the value handed to [setter]. *)
Definition incrementValue (value increment min max : number) : number :=
  Math_min max (Math_max min (add value increment)).

(** The bounds used at the six call sites. *)
Definition GAP_MIN : number := of_Z 10.
Definition GAP_MAX : number := of_Z 200.
Definition AMPLITUDE_MIN : number := of_Z 10.
Definition AMPLITUDE_MAX : number := of_Z 50.
Definition SPEED_MIN : number := lit 1 (-1).
Definition SPEED_MAX : number := of_Z 10.

(** ** Values

    What a variable of the component can hold at run time. An object is the
    list of its own enumerable properties in enumeration order. *)

#[warnings="-register-all"] Inductive JSVal : Type :=
  | VUndefined
  | VNull
  | VBool (b : bool)
  | VNum (x : number)
  | VStr (s : string)
  | VArr (elems : list JSVal)
  | VObj (props : list (string * JSVal)).

Inductive Exn : Type :=
  | SyntaxError
  | TypeError
  | QuotaExceededError
  | SecurityError.

(** The outcome of evaluating an expression or running a statement list. *)
Inductive Completion (A : Type) : Type :=
  | Normal (a : A)
  | Throw (e : Exn).
Arguments Normal {A} a.
Arguments Throw {A} e.

#[export] Instance Completion_ret : MRet Completion := @Normal.
#[export] Instance Completion_bind : MBind Completion := λ A B f c,
  match c with Normal a => f a | Throw e => Throw e end.

Fixpoint prop_lookup (k : string) (props : list (string * JSVal)) : option JSVal :=
  match props with
  | [] => None
  | (k', v) :: rest => if String.eqb k' k then Some v else prop_lookup k rest
  end.

(** [v.k] for a property name [k] that no built-in prototype defines and
    that is not an index or [length] (the names read in this program are
    gap, amplitude, speed, dotColor, notes and id). Reading a property of
    [undefined] or [null] throws. *)
Definition Get (v : JSVal) (k : string) : Completion JSVal :=
  match v with
  | VUndefined | VNull => Throw TypeError
  | VObj props => Normal (default VUndefined (prop_lookup k props))
  | _ => Normal VUndefined
  end.

(** [v !== s] for a string [s]. *)
Definition strict_ne_string (v : JSVal) (s : string) : bool :=
  match v with VStr s' => negb (String.eqb s' s) | _ => true end.

(** [...v] in an array literal: arrays and strings are iterable. *)
Definition spread (v : JSVal) : Completion (list JSVal) :=
  match v with
  | VArr elems => Normal elems
  | VStr s => Normal ((λ c, VStr (String c EmptyString)) <$> String.list_ascii_of_string s)
  | _ => Throw TypeError
  end.

(** The left operand of [value + increment], for a number [increment], as
    the number that is added: [undefined] counts as NaN, [null] and [false]
    as 0, [true] as 1. For strings, arrays and objects the sum is a string
    concatenation, which is not modelled ([None]). *)
Definition left_addend (v : JSVal) : option number :=
  match v with
  | VUndefined => Some NaN
  | VNull => Some (S754_zero false)
  | VBool b => Some (if b then of_Z 1 else S754_zero false)
  | VNum x => Some x
  | VStr _ | VArr _ | VObj _ => None
  end.

(** ** Strings: [trim] and the decimal form of a timestamp *)

(** White space and line terminators among the code units below 256:
    TAB, LF, VT, FF, CR, SP and NBSP. *)
Definition is_white (c : ascii) : bool :=
  let n := N_of_ascii c in
  ((9 <=? n) && (n <=? 13) || (n =? 32) || (n =? 160))%N.

Fixpoint trimStart (s : string) : string :=
  match s with
  | String c rest => if is_white c then trimStart rest else s
  | EmptyString => EmptyString
  end.

Fixpoint trimEnd (s : string) : string :=
  match s with
  | String c rest =>
      match trimEnd rest with
      | EmptyString => if is_white c then EmptyString else String c EmptyString
      | t => String c t
      end
  | EmptyString => EmptyString
  end.

Definition trim (s : string) : string := trimEnd (trimStart s).

(** A string is truthy when it is not empty. *)
Definition truthy_string (s : string) : bool :=
  match s with EmptyString => false | _ => true end.

Fixpoint blank (s : string) : bool :=
  match s with
  | String c rest => is_white c && blank rest
  | EmptyString => true
  end.

(** [Date.now().toString()] for the clock reading [now] (an integer number
    of milliseconds): its decimal digits. *)
Definition timestamp_id (now : Z) : string := pretty now.

(** ** Typed records of the source *)

Module Note.
(** [type Note = { id: string, title: string, content: string, date: string }] *)
Record t : Type := mk { id : string; title : string; content : string; date : string }.

(** The object a note is at run time, with the property order that
    [{ ...newNote, id }] produces. *)
Definition to_val (n : t) : JSVal :=
  VObj [("title", VStr (title n)); ("content", VStr (content n));
        ("date", VStr (date n)); ("id", VStr (id n))]%string.
End Note.

Module Draft.
(** [Omit<Note, "id">], the content of the note form. *)
Record t : Type := mk { title : string; content : string; date : string }.
End Draft.

Module AppState.
(** [type AppState = { gap, amplitude, speed: number, dotColor: string, notes: Note[] }] *)
Record t : Type := mk {
  gap : number; amplitude : number; speed : number;
  dotColor : string; notes : list Note.t }.
End AppState.

(** ** Component state

    The [useState] cells the persistence and note logic reads or writes.
    The five persisted cells hold whatever was last handed to their setter. *)
Record State : Type := mkState {
  gap : JSVal;
  amplitude : JSVal;
  speed : JSVal;
  dotColor : JSVal;
  notes : JSVal;
  showNoteForm : bool;
  newNote : Draft.t }.

Definition with_gap (v : JSVal) (st : State) : State :=
  mkState v (amplitude st) (speed st) (dotColor st) (notes st) (showNoteForm st) (newNote st).
Definition with_amplitude (v : JSVal) (st : State) : State :=
  mkState (gap st) v (speed st) (dotColor st) (notes st) (showNoteForm st) (newNote st).
Definition with_speed (v : JSVal) (st : State) : State :=
  mkState (gap st) (amplitude st) v (dotColor st) (notes st) (showNoteForm st) (newNote st).
Definition with_dotColor (v : JSVal) (st : State) : State :=
  mkState (gap st) (amplitude st) (speed st) v (notes st) (showNoteForm st) (newNote st).
Definition with_notes (v : JSVal) (st : State) : State :=
  mkState (gap st) (amplitude st) (speed st) (dotColor st) v (showNoteForm st) (newNote st).
Definition with_showNoteForm (b : bool) (st : State) : State :=
  mkState (gap st) (amplitude st) (speed st) (dotColor st) (notes st) b (newNote st).
Definition with_newNote (d : Draft.t) (st : State) : State :=
  mkState (gap st) (amplitude st) (speed st) (dotColor st) (notes st) (showNoteForm st) d.

(** The initial values of the cells; [today] is
    [new Date().toISOString().split("T")[0]] at mount. *)
Definition initial_state (today : string) : State :=
  {| gap := VNum (of_Z 40);
     amplitude := VNum (of_Z 50);
     speed := VNum (of_Z 1);
     dotColor := VStr "#00ffaa";
     notes := VArr [];
     showNoteForm := false;
     newNote := Draft.mk "" "" today |}.

(** The state in which the five persisted cells hold a typed [AppState]. *)
Definition of_AppState (a : AppState.t) (st : State) : State :=
  {| gap := VNum (AppState.gap a);
     amplitude := VNum (AppState.amplitude a);
     speed := VNum (AppState.speed a);
     dotColor := VStr (AppState.dotColor a);
     notes := VArr (Note.to_val <$> AppState.notes a);
     showNoteForm := showNoteForm st;
     newNote := newNote st |}.

(** ** The browser: local storage and the console

    [localStorage] is a string-to-string map. Reading throws when storage
    access is denied; whether a write is accepted (quota, private mode) is
    the browser's decision, [accepts]. *)
Record Storage : Type := mkStorage {
  items : gmap string string;
  readable : bool;
  accepts : string → string → bool }.

Definition getItem (ls : Storage) (key : string) : Completion (option string) :=
  if readable ls then Normal (items ls !! key) else Throw SecurityError.

Definition setItem (ls : Storage) (key value : string) : Completion Storage :=
  if accepts ls key value
  then Normal (mkStorage (<[key := value]> (items ls)) (readable ls) (accepts ls))
  else Throw QuotaExceededError.

Record App : Type := mkApp {
  ui : State;
  localStorage : Storage;
  console : list (string * Exn) }.

(** ** Handlers as state transformers that may throw

    A handler runs against the current cells and the browser; a thrown
    exception keeps the effects made before it. *)
Definition M (A : Type) : Type := App → Completion A * App.

#[export] Instance M_ret : MRet M := λ A a app, (Normal a, app).
#[export] Instance M_bind : MBind M := λ A B f m app,
  match m app with
  | (Normal a, app') => f a app'
  | (Throw e, app') => (Throw e, app')
  end.

Definition lift {A} (c : Completion A) : M A := λ app, (c, app).

(** [try { body } catch (error) { handler }] *)
Definition try_catch {A} (body : M A) (handler : Exn → M A) : M A := λ app,
  match body app with
  | (Normal a, app') => (Normal a, app')
  | (Throw e, app') => handler e app'
  end.

Definition update_ui (f : State → State) (app : App) : App :=
  mkApp (f (ui app)) (localStorage app) (console app).

Definition set_state (f : State → State) : M unit := λ app,
  (Normal (), update_ui f app).

(** A setter called with an updater function, [setNotes((prev) => ...)]. *)
Definition set_state_with (get : State → JSVal) (set : JSVal → State → State)
    (updater : JSVal → Completion JSVal) : M unit := λ app,
  match updater (get (ui app)) with
  | Normal v => set_state (set v) app
  | Throw e => (Throw e, app)
  end.

Definition setGap (v : JSVal) : M unit := set_state (with_gap v).
Definition setAmplitude (v : JSVal) : M unit := set_state (with_amplitude v).
Definition setSpeed (v : JSVal) : M unit := set_state (with_speed v).
Definition setDotColor (v : JSVal) : M unit := set_state (with_dotColor v).
Definition setNotes (v : JSVal) : M unit := set_state (with_notes v).
Definition setNewNote (d : Draft.t) : M unit := set_state (with_newNote d).
Definition setShowNoteForm (b : bool) : M unit := set_state (with_showNoteForm b).

Definition localStorage_getItem (key : string) : M (option string) := λ app,
  (getItem (localStorage app) key, app).

Definition localStorage_setItem (key value : string) : M unit := λ app,
  match setItem (localStorage app) key value with
  | Normal ls => (Normal (), mkApp (ui app) ls (console app))
  | Throw e => (Throw e, app)
  end.

Definition log_error (msg : string) (error : Exn) (app : App) : App :=
  mkApp (ui app) (localStorage app) (console app ++ [(msg, error)]).

Definition console_error (msg : string) (error : Exn) : M unit := λ app,
  (Normal (), log_error msg error app).

Definition APP_STATE_KEY : string := "emdr-app-state".
Definition NOTES_KEY : string := "emdr-notes".

(** ** JSON

    [JSON.stringify] and [JSON.parse] are the engine's; the development
    only fixes which value a text written by [JSON.stringify] denotes:
    [undefined], NaN and the infinities become [null] (a property whose
    value is [undefined] is left out), -0 becomes 0, everything else is
    kept. *)
Definition json_prop (toJSON : JSVal → JSVal) (p : string * JSVal)
    : option (string * JSVal) :=
  match p with
  | (_, VUndefined) => None
  | (k, w) => Some (k, toJSON w)
  end.

Fixpoint toJSON (v : JSVal) : JSVal :=
  match v with
  | VUndefined => VNull
  | VNum x =>
      if isFinite x then VNum (if isNegZero x then S754_zero false else x)
      else VNull
  | VArr elems => VArr (toJSON <$> elems)
  | VObj props => VObj (omap (json_prop toJSON) props)
  | _ => v
  end.

(** The value a cell holds after it was written as a property of the saved
    object and read back from the parsed one. *)
Definition reload (v : JSVal) : JSVal :=
  match v with VUndefined => VUndefined | _ => toJSON v end.

Class JSON : Type := {
  JSON_stringify : JSVal → Completion string;
  JSON_parse : string → Completion JSVal }.

(** A text that [JSON.stringify] produced for an object is not empty, and
    parsing it yields the value described by [toJSON]. *)
Definition JSON_faithful `{codec : JSON} : Prop :=
  ∀ props text,
    JSON_stringify (VObj props) = Normal text →
    truthy_string text = true ∧
    JSON_parse text = Normal (toJSON (VObj props)).

(** ** Persistence *)

(** The object literal [{ gap, amplitude, speed, dotColor, notes }] built
    from the variables of the render [snap] in which the function was
    created. *)
Definition appState_of (snap : State) : JSVal :=
  VObj [("gap", gap snap); ("amplitude", amplitude snap); ("speed", speed snap);
        ("dotColor", dotColor snap); ("notes", notes snap)]%string.

Definition saveAppState `{codec : JSON} (snap : State) : M unit :=
  let appState := appState_of snap in
  try_catch
    (text ← lift (JSON_stringify appState);
     localStorage_setItem APP_STATE_KEY text)
    (λ error, console_error "Error saving app state to localStorage:" error).

(** The body of the [try] block returns [Some true] at its [return true]
    and [None] when control falls out of the [if]. *)
Definition loadAppState `{codec : JSON} : M bool :=
  returned ← try_catch
    (savedState ← localStorage_getItem APP_STATE_KEY;
     match savedState with
     | Some text =>
         if truthy_string text then
           parsedState ← lift (JSON_parse text);
           v ← lift (Get parsedState "gap"); setGap v;;
           v ← lift (Get parsedState "amplitude"); setAmplitude v;;
           v ← lift (Get parsedState "speed"); setSpeed v;;
           v ← lift (Get parsedState "dotColor"); setDotColor v;;
           v ← lift (Get parsedState "notes"); setNotes v;;
           mret (Some true)
         else mret None
     | None => mret None
     end)
    (λ error,
       console_error "Error loading app state from localStorage:" error;;
       mret None);
  match returned with
  | Some b => mret b
  | None => mret false
  end.

(** What the five setter calls of [loadAppState] leave in the cells, for a
    parsed value other than [null]. *)
Definition property (v : JSVal) (k : string) : JSVal :=
  match Get v k with Normal w => w | Throw _ => VUndefined end.

Definition adopt (parsedState : JSVal) (st : State) : State :=
  with_notes (property parsedState "notes")
    (with_dotColor (property parsedState "dotColor")
       (with_speed (property parsedState "speed")
          (with_amplitude (property parsedState "amplitude")
             (with_gap (property parsedState "gap") st)))).

(** The effect run once after the first render. *)
Definition loadOnMount `{codec : JSON} : M unit :=
  stateLoaded ← loadAppState;
  if negb stateLoaded then
    savedNotes ← localStorage_getItem NOTES_KEY;
    match savedNotes with
    | Some text =>
        if truthy_string text
        then (v ← lift (JSON_parse text); setNotes v)
        else mret ()
    | None => mret ()
    end
  else mret ().

(** ** Ranges of the settings *)

(** The cell holds a number between [lo] and [hi]. *)
Definition cell_within (lo hi : number) (v : JSVal) : bool :=
  match v with VNum x => within lo hi x | _ => false end.

(** gap in [10,200], amplitude in [10,50] and speed in [0.5,10]. *)
Definition in_bounds (st : State) : bool :=
  cell_within GAP_MIN GAP_MAX (gap st)
  && cell_within AMPLITUDE_MIN AMPLITUDE_MAX (amplitude st)
  && cell_within SPEED_MIN SPEED_MAX (speed st).


(** ** Stepper buttons

    [onClick={() => incrementValue(setGap, gap, -5, 10, 200)}] and its five
    siblings; [None] where the sum is not modelled (see [left_addend]). *)
Definition stepper (cell : State → JSVal) (setter : JSVal → M unit)
    (increment min max : number) (snap : State) : option (M unit) :=
  value ← left_addend (cell snap);
  Some (setter (VNum (incrementValue value increment min max))).

Definition onGapMinus := stepper gap setGap (of_Z (-5)) GAP_MIN GAP_MAX.
Definition onGapPlus := stepper gap setGap (of_Z 5) GAP_MIN GAP_MAX.
Definition onAmplitudeMinus :=
  stepper amplitude setAmplitude (of_Z (-5)) AMPLITUDE_MIN AMPLITUDE_MAX.
Definition onAmplitudePlus :=
  stepper amplitude setAmplitude (of_Z 5) AMPLITUDE_MIN AMPLITUDE_MAX.
Definition onSpeedMinus := stepper speed setSpeed (lit (-1) (-1)) SPEED_MIN SPEED_MAX.
Definition onSpeedPlus := stepper speed setSpeed (lit 1 (-1)) SPEED_MIN SPEED_MAX.

(** ** Notes *)

(** [now] is the reading of [Date.now()], [today] the date the form is
    reset to. The focus call of the rejected branch acts on the page only. *)
Definition handleAddNote (snap : State) (now : Z) (today : string) : M unit :=
  if negb (truthy_string (trim (Draft.title (newNote snap)))) then
    mret ()
  else
    let newNoteWithId :=
      VObj [("title", VStr (Draft.title (newNote snap)));
            ("content", VStr (Draft.content (newNote snap)));
            ("date", VStr (Draft.date (newNote snap)));
            ("id", VStr (timestamp_id now))]%string in
    set_state_with notes with_notes
      (λ prev, rest ← spread prev; Normal (VArr (newNoteWithId :: rest)));;
    setNewNote (Draft.mk "" "" today);;
    setShowNoteForm false.

(** The [id] property of each element of a notes array. *)
Definition note_ids (elems : list JSVal) : list (Completion JSVal) :=
  (λ note, Get note "id") <$> elems.

(** [elems.filter((note) => note.id !== id)] *)
Fixpoint filter_by_id (id : string) (elems : list JSVal) : Completion (list JSVal) :=
  match elems with
  | [] => Normal []
  | note :: rest =>
      v ← Get note "id";
      kept ← filter_by_id id rest;
      Normal (if strict_ne_string v id then note :: kept else kept)
  end.

Definition handleDeleteNote (id : string) : M unit :=
  set_state_with notes with_notes
    (λ prev, match prev with
             | VArr elems => kept ← filter_by_id id elems; Normal (VArr kept)
             | _ => Throw TypeError
             end).

(** ** What a render evaluates

    The expressions of the component function whose evaluation can throw,
    in the order of the source. Nothing in the page catches an exception
    thrown while rendering: React then takes the component down. (What the
    widget library does with the values handed to the notes sheet and to
    the settings popover while these are open is not part of this.) *)

Definition isZero (x : number) : bool :=
  match x with S754_zero _ => true | _ => false end.

(** Conversion of a value to a string or to a number, as in [`${gap}px`],
    [amplitude / speed], the key of a list element or [new Date(v)]. The
    values at hand hold no function, so an object converts (through
    [Object.prototype.toString]) unless it has a property [toString] of its
    own; an array converts its elements. *)
Fixpoint coercible (v : JSVal) : bool :=
  match v with
  | VArr elems => forallb coercible elems
  | VObj props =>
      match prop_lookup "toString" props with Some _ => false | None => true end
  | _ => true
  end.

(** [notes.length === 0] *)
Definition length_is_zero (v : JSVal) : Completion bool :=
  match v with
  | VUndefined | VNull => Throw TypeError
  | VBool _ | VNum _ => Normal false
  | VStr s => Normal (negb (truthy_string s))
  | VArr elems => Normal (match elems with [] => true | _ => false end)
  | VObj props =>
      Normal (match prop_lookup "length" props with
              | Some (VNum x) => isZero x
              | _ => false
              end)
  end.

(** The body of [notes.map((note) => ...)] for one element: [note.id],
    [note.title], [note.date] and [note.content] are read, [note.id] is
    converted to the element's key and [note.date] is handed to
    [new Date]. *)
Definition render_note (note : JSVal) : Completion unit :=
  id ← Get note "id";
  date ← Get note "date";
  if coercible id && coercible date then Normal () else Throw TypeError.

Fixpoint render_each (elems : list JSVal) : Completion unit :=
  match elems with
  | [] => Normal ()
  | note :: rest => render_note note;; render_each rest
  end.

(** The list of notes ([notes.length === 0 ? ... : notes.map(...)], only
    an array has a [map]), then [speed.toFixed(1)], then the template
    literals of the dots. When the form is shown the date of the draft is
    formatted as well; that date is the date part of an ISO text, which
    [new Date] reads, so the formatting does not throw. *)
Definition render (st : State) : Completion unit :=
  empty ← length_is_zero (notes st);
  (if empty : bool then Normal ()
   else match notes st with
        | VArr elems => render_each elems
        | _ => Throw TypeError
        end);;
  match speed st with VNum _ => Normal () | _ => Throw TypeError end;;
  if coercible (amplitude st) && coercible (gap st) && coercible (dotColor st)
  then Normal () else Throw TypeError.

(** ** The debounced save

    Because [saveAppState] is a new function in every render, the effect
<<
  useEffect(() => {
    const saveTimeout = setTimeout(() => { saveAppState() }, 500)
    return () => clearTimeout(saveTimeout)
  }, [gap, amplitude, speed, dotColor, notes, saveAppState])
>>
    is torn down and run again at every committed render. Time is counted
    in milliseconds. The browser keeps the pending timers, each under the
    id that [setTimeout] returned for it, in the order of their creation; a
    timer runs once the clock has reached its deadline, and only
    [clearTimeout] of its id takes it away before. The callback of each of
    these timers is the [saveAppState] of the render that set it. [fired]
    counts the callbacks that have run. *)
Record Timer : Type := mkTimer { deadline : Z; closure : State }.

(** [saveTimeout] is the id that the last run of the effect got from
    [setTimeout]: the one its cleanup will clear. *)
Record Sched : Type := mkSched {
  app : App;
  clock : Z;
  timers : list (nat * Timer);
  next_timer : nat;
  saveTimeout : option nat;
  mounted : bool;
  fired : nat }.

(** [setTimeout(() => { saveAppState() }, delay)], called in the render
    whose cells are [snap]: one more pending timer, under a new id. *)
Definition setTimeout (snap : State) (delay : Z) (s : Sched) : nat * Sched :=
  (next_timer s,
   mkSched (app s) (clock s)
     (timers s ++ [(next_timer s, mkTimer (clock s + delay) snap)])
     (S (next_timer s)) (saveTimeout s) (mounted s) (fired s)).

(** [clearTimeout(id)]: the timer of that id, if it is still pending, is
    dropped; the others stay. *)
Definition clearTimeout (id : nat) (s : Sched) : Sched :=
  mkSched (app s) (clock s) (filter (λ tm, tm.1 ≠ id) (timers s))
    (next_timer s) (saveTimeout s) (mounted s) (fired s).

(** The cleanup [() => clearTimeout(saveTimeout)] of the effect's last
    run. *)
Definition run_cleanup (s : Sched) : Sched :=
  match saveTimeout s with
  | Some id => clearTimeout id s
  | None => s
  end.

(** A run of the effect in the render of the current cells. *)
Definition run_effect (s : Sched) : Sched :=
  match setTimeout (ui (app s)) 500 s with
  | (id, s') =>
      mkSched (app s') (clock s') (timers s') (next_timer s') (Some id)
        (mounted s') (fired s')
  end.

(** The component goes away: the cleanup runs, and no effect runs again. *)
Definition unmount (s : Sched) : Sched :=
  mkSched (app s) (clock s) (timers (run_cleanup s)) (next_timer s) None false
    (fired s).

(** A render of the current cells. When it returns, React commits it: the
    cleanup of the effect's previous run, then its new run. When it throws,
    the component is taken down. *)
Definition commit_render (s : Sched) : Sched :=
  match render (ui (app s)) with
  | Normal _ => run_effect (run_cleanup s)
  | Throw _ => unmount s
  end.

(** The order in which timers that are due run: by deadline, and by
    creation among equal deadlines. *)
Fixpoint enqueue (x : nat * Timer) (queue : list (nat * Timer)) : list (nat * Timer) :=
  match queue with
  | [] => [x]
  | y :: rest =>
      if deadline x.2 <=? deadline y.2 then x :: queue else y :: enqueue x rest
  end.

Definition firing_order (pending : list (nat * Timer)) : list (nat * Timer) :=
  foldr enqueue [] pending.

(** [dt] milliseconds pass without a render: the timers whose deadline
    has come run, each calling the [saveAppState] of its render, and are
    gone; the others stay pending. *)
Definition elapse `{codec : JSON} (dt : Z) (s : Sched) : Sched :=
  let t := clock s + dt in
  let ready := firing_order (filter (λ tm, deadline tm.2 ≤ t) (timers s)) in
  mkSched (foldl (λ a tm, (saveAppState (closure tm.2) a).2) (app s) ready) t
    (filter (λ tm, ¬ deadline tm.2 ≤ t) (timers s))
    (next_timer s) (saveTimeout s) (mounted s) (length ready + fired s).

(** A mutation: a setter call gives the cells a new content and React
    renders the component again. (A call that leaves every cell as it is
    causes no render and is not an event of this model; a component that
    was taken down has no handler left to run.) *)
Definition mutate (f : State → State) (s : Sched) : Sched :=
  if mounted s then
    commit_render
      (mkSched (update_ui f (app s)) (clock s) (timers s) (next_timer s)
         (saveTimeout s) (mounted s) (fired s))
  else s.

(** Mutations, each [dt] milliseconds after the previous event. *)
Fixpoint burst `{codec : JSON} (events : list (Z * (State → State))) (s : Sched) : Sched :=
  match events with
  | [] => s
  | (dt, f) :: rest => burst rest (mutate f (elapse dt s))
  end.

(** The cells after the setter calls of a list of mutations. *)
Definition apply_all (events : list (Z * (State → State))) (st : State) : State :=
  foldl (λ st ev, ev.2 st) st events.

(** The render that follows each of the mutations returns. *)
Fixpoint renders_through (events : list (Z * (State → State))) (st : State) : bool :=
  match events with
  | [] => true
  | (_, f) :: rest =>
      match render (f st) with
      | Normal _ => renders_through rest (f st)
      | Throw _ => false
      end
  end.

(** The only timer that can be pending is the one the effect's cleanup
    will clear. *)
Definition tracked (s : Sched) : bool :=
  match timers s with
  | [] => true
  | [(id, _)] =>
      match saveTimeout s with Some id' => Nat.eqb id id' | None => false end
  | _ => false
  end.

(** The component is mounted and the pending timer is the one set by a
    render at the current time. *)
Definition armed (s : Sched) : Prop :=
  mounted s = true ∧
  ∃ id, saveTimeout s = Some id ∧
        timers s = [(id, mkTimer (clock s + 500) (ui (app s)))].

(** ** The rest of the note form *)


(** [onChange={(e) => setNewNote({ ...newNote, title: e.target.value })}] *)
Definition onTitleChange (snap : State) (value : string) : M unit :=
  setNewNote (Draft.mk value (Draft.content (newNote snap)) (Draft.date (newNote snap))).

(** [onChange={(e) => setNewNote({ ...newNote, content: e.target.value })}] *)
Definition onContentChange (snap : State) (value : string) : M unit :=
  setNewNote (Draft.mk (Draft.title (newNote snap)) value (Draft.date (newNote snap))).

(** [s.split("T")[0]]: the text before the first T, all of [s] when it has
    none. *)
Fixpoint before_T (s : string) : string :=
  match s with
  | EmptyString => EmptyString
  | String c rest => if Ascii.eqb c "T" then EmptyString else String c (before_T rest)
  end.

(** The cells that only drive the widgets. *)
Record Chrome : Type := mkChrome {
  isRunning : bool;
  openSettings : bool;
  sidebarOpen : bool;
  calendarOpen : bool }.

Record Page : Type := mkPage { chrome : Chrome; core : App }.

(** A handler of the cells of [State], run on the page. *)
Definition on_core {A} (m : M A) (p : Page) : Completion A * Page :=
  match m (core p) with (r, app') => (r, mkPage (chrome p) app') end.

(** [handleDateSelect]; a picked date is given by the text of its
    [toISOString()]. *)
Definition handleDateSelect (snap : State) (date : option string) (p : Page)
    : Completion unit * Page :=
  match date with
  | Some iso =>
      match setNewNote (Draft.mk (Draft.title (newNote snap))
                          (Draft.content (newNote snap)) (before_T iso)) (core p) with
      | (Normal _, app') =>
          (Normal (),
           mkPage (mkChrome (isRunning (chrome p)) (openSettings (chrome p))
                     (sidebarOpen (chrome p)) false) app')
      | (Throw e, app') => (Throw e, mkPage (chrome p) app')
      end
  | None => (Normal (), p)
  end.

(** ** The save button *)

Module Toast.
Record t : Type := mk { title : string; description : string }.
End Toast.

(** [handleManualSave]: the handler, with the toasts it shows. *)
Definition handleManualSave `{codec : JSON} (snap : State) (app : App)
    : Completion unit * App * list Toast.t :=
  match saveAppState snap app with
  | (Normal _, app') =>
      (Normal (), app',
       [Toast.mk "Settings saved"
          "Your settings and notes have been saved to this device."])
  | (Throw e, app') => (Throw e, app', [])
  end.

(** ** The six stepper buttons together *)
Definition stepper_buttons : list (State → option (M unit)) :=
  [onGapMinus; onGapPlus; onAmplitudeMinus; onAmplitudePlus; onSpeedMinus; onSpeedPlus].

(** ** The start of the component's life

    The cells start at their initial values and are rendered. At the first
    commit the effects run in the order of the source: the load effect, then
    the save effect, which sets a timer for the cells of that first render.
    The setter calls of the load effect cause a second render, of the cells
    they left; it is committed in the same millisecond, or takes the
    component down when it throws. (When the load effect called no setter
    there is no second render; the timer it would set has the deadline and
    the cells of the first one.) An exception of the load effect is not
    caught either. The outcome names the exception that took the component
    down, if any. *)
Definition mount `{codec : JSON} (today : string) (ls : Storage)
    (log : list (string * Exn)) (t0 : Z) : Completion unit * Sched :=
  let first := mkSched (mkApp (initial_state today) ls log) t0 [] 0 None true 0 in
  match loadOnMount (app first) with
  | (Normal _, app') =>
      let committed := run_effect first in
      (render (ui app'),
       commit_render
         (mkSched app' (clock committed) (timers committed) (next_timer committed)
            (saveTimeout committed) (mounted committed) (fired committed)))
  | (Throw e, app') => (Throw e, mkSched app' t0 [] 0 None false 0)
  end.

(** The closure of every pending timer holds the cells as they are now. *)
Definition up_to_date (s : Sched) : Prop :=
  (λ tm, closure tm.2) <$> timers s = (λ _, ui (app s)) <$> timers s.

(** ** The note form as a sequence of edits *)



(** ** The buttons and the ranges *)

(** Pressed in the render [snap] with the application at [app], the button
    runs, leaves the three settings in bounds and touches nothing else that
    is persisted. *)
Definition keeps_bounds (snap : State) (app : App)
    (button : State → option (M unit)) : Prop :=
  ∃ m, button snap = Some m ∧
       (m app).1 = Normal () ∧
       in_bounds (ui (m app).2) = true ∧
       notes (ui (m app).2) = notes (ui app) ∧
       dotColor (ui (m app).2) = dotColor (ui app) ∧
       localStorage (m app).2 = localStorage app.

(** ** A reference text codec

    An instance of [JSON] on a tag-length-value notation, used to run the
    persistence routines on concrete stores. *)
Module RefCodec.

Local Open Scope char_scope.

(** Binary digits, least significant first, closed by a dot. *)
Fixpoint enc_pos (p : positive) (r : string) : string :=
  match p with
  | xH => String "." r
  | xO q => String "0" (enc_pos q r)
  | xI q => String "1" (enc_pos q r)
  end.

Fixpoint dec_pos (s : string) : option (positive * string) :=
  match s with
  | EmptyString => None
  | String c r =>
      if Ascii.eqb c "." then Some (xH, r)
      else if Ascii.eqb c "0" then '(q, r') ← dec_pos r; Some (xO q, r')
      else if Ascii.eqb c "1" then '(q, r') ← dec_pos r; Some (xI q, r')
      else None
  end.

Definition enc_nat (n : nat) (r : string) : string :=
  enc_pos (Pos.of_succ_nat n) r.

Definition dec_nat (s : string) : option (nat * string) :=
  '(p, r) ← dec_pos s; Some (Nat.pred (Pos.to_nat p), r).

Definition enc_bool (b : bool) (r : string) : string :=
  String (if b then "t" else "f") r.

Definition dec_bool (s : string) : option (bool * string) :=
  match s with
  | EmptyString => None
  | String c r =>
      if Ascii.eqb c "t" then Some (true, r)
      else if Ascii.eqb c "f" then Some (false, r)
      else None
  end.

Definition enc_Z (z : Z) (r : string) : string :=
  match z with
  | Z0 => String "z" r
  | Zpos p => String "+" (enc_pos p r)
  | Zneg p => String "-" (enc_pos p r)
  end.

Definition dec_Z (s : string) : option (Z * string) :=
  match s with
  | EmptyString => None
  | String c r =>
      if Ascii.eqb c "z" then Some (Z0, r)
      else if Ascii.eqb c "+" then '(p, r') ← dec_pos r; Some (Zpos p, r')
      else if Ascii.eqb c "-" then '(p, r') ← dec_pos r; Some (Zneg p, r')
      else None
  end.

Fixpoint take_chars (n : nat) (s : string) : option (string * string) :=
  match n with
  | O => Some (EmptyString, s)
  | S n' =>
      match s with
      | EmptyString => None
      | String c r => '(t, r') ← take_chars n' r; Some (String c t, r')
      end
  end.

Definition enc_string (s r : string) : string :=
  enc_nat (String.length s) (String.append s r).

Definition dec_string (s : string) : option (string * string) :=
  '(n, r) ← dec_nat s; take_chars n r.

Definition enc_number (x : number) (r : string) : string :=
  match x with
  | S754_zero b => String "o" (enc_bool b r)
  | S754_infinity b => String "i" (enc_bool b r)
  | S754_nan => String "n" r
  | S754_finite b m e => String "f" (enc_bool b (enc_pos m (enc_Z e r)))
  end.

Definition dec_number (s : string) : option (number * string) :=
  match s with
  | EmptyString => None
  | String c r =>
      if Ascii.eqb c "o" then '(b, r') ← dec_bool r; Some (S754_zero b, r')
      else if Ascii.eqb c "i" then '(b, r') ← dec_bool r; Some (S754_infinity b, r')
      else if Ascii.eqb c "n" then Some (S754_nan, r)
      else if Ascii.eqb c "f" then
        '(b, r1) ← dec_bool r;
        '(m, r2) ← dec_pos r1;
        '(e, r3) ← dec_Z r2;
        Some (S754_finite b m e, r3)
      else None
  end.

Fixpoint enc_val (v : JSVal) (r : string) : string :=
  match v with
  | VUndefined => String "U" r
  | VNull => String "N" r
  | VBool b => String "B" (enc_bool b r)
  | VNum x => String "D" (enc_number x r)
  | VStr s => String "S" (enc_string s r)
  | VArr elems =>
      String "A" (enc_nat (length elems) (foldr enc_val r elems))
  | VObj props =>
      String "O" (enc_nat (length props)
        (foldr (λ p acc, enc_string p.1 (enc_val p.2 acc)) r props))
  end.

Fixpoint dec_many {A} (dec : string → option (A * string)) (n : nat) (s : string)
    : option (list A * string) :=
  match n with
  | O => Some ([], s)
  | S n' =>
      '(x, r) ← dec s;
      '(xs, r') ← dec_many dec n' r;
      Some (x :: xs, r')
  end.

Fixpoint dec_val (fuel : nat) (s : string) : option (JSVal * string) :=
  match fuel with
  | O => None
  | S fuel' =>
      match s with
      | EmptyString => None
      | String c r =>
          if Ascii.eqb c "U" then Some (VUndefined, r)
          else if Ascii.eqb c "N" then Some (VNull, r)
          else if Ascii.eqb c "B" then '(b, r') ← dec_bool r; Some (VBool b, r')
          else if Ascii.eqb c "D" then '(x, r') ← dec_number r; Some (VNum x, r')
          else if Ascii.eqb c "S" then '(t, r') ← dec_string r; Some (VStr t, r')
          else if Ascii.eqb c "A" then
            '(n, r1) ← dec_nat r;
            '(elems, r2) ← dec_many (dec_val fuel') n r1;
            Some (VArr elems, r2)
          else if Ascii.eqb c "O" then
            '(n, r1) ← dec_nat r;
            '(props, r2) ←
              dec_many (λ s1, '(k, r3) ← dec_string s1;
                              '(w, r4) ← dec_val fuel' r3;
                              Some ((k, w), r4)) n r1;
            Some (VObj props, r2)
          else None
      end
  end.

Definition render (v : JSVal) : string := enc_val v EmptyString.

(** Nesting depth, the fuel [dec_val] needs. *)
Fixpoint height (v : JSVal) : nat :=
  match v with
  | VArr elems => S (foldr (λ w h, Nat.max (height w) h) O elems)
  | VObj props => S (foldr (λ p h, Nat.max (height p.2) h) O props)
  | _ => 1%nat
  end.

Definition read (s : string) : Completion JSVal :=
  match dec_val (String.length s) s with
  | Some (v, EmptyString) => Normal v
  | _ => Throw SyntaxError
  end.

#[export] Instance codec : JSON :=
  {| JSON_stringify v := Normal (render (toJSON v)); JSON_parse := read |}.

End RefCodec.

(** Concrete values used to run the definitions. *)
Module Sample.

Definition today : string := "2024-05-17".

(** A store that is readable and accepts every write. *)
Definition open_storage (m : gmap string string) : Storage :=
  mkStorage m true (λ _ _, true).

(** A store that refuses every write (quota exhausted). *)
Definition full_storage (m : gmap string string) : Storage :=
  mkStorage m true (λ _ _, false).

Definition fresh_app : App := mkApp (initial_state today) (open_storage ∅) [].

(** The cells after loading a record without a [gap] property. *)
Definition no_gap_state : State := with_gap VUndefined (initial_state today).

Definition nan_gap : AppState.t :=
  AppState.mk NaN (of_Z 50) (of_Z 1) "#00ffaa" [].

Definition nan_state : State := of_AppState nan_gap (initial_state today).

Definition plain : AppState.t :=
  AppState.mk (of_Z 120) (of_Z 35) (lit 5 (-1)) "#ff0000"
    [Note.mk "1700000000000" "Session 1" "calm" "2024-05-16"].

Definition session1 : Draft.t := Draft.mk "Session 1" "first" "2024-05-17".

Definition old_note : Note.t :=
  Note.mk "1700000000000" "Earlier" "" "2024-05-16".

(** The form holds a titled draft; one note is already listed. *)
Definition form_state : State :=
  with_newNote session1 (with_notes (VArr [Note.to_val old_note]) (initial_state today)).

Definition noted_app : App := mkApp form_state (open_storage ∅) [].

(** A store holding the record that [saveAppState] wrote for [plain]. *)
Definition plain_text : string :=
  RefCodec.render (toJSON (appState_of (of_AppState plain (initial_state today)))).

Definition stored_app : App :=
  mkApp (initial_state today) (open_storage {[ APP_STATE_KEY := plain_text ]}) [].

(** A record whose gap is out of range and whose speed is not a number. *)
Definition wild_record : JSVal :=
  VObj [("gap", VNum (of_Z 1000)); ("amplitude", VNum (of_Z 50));
        ("speed", VStr "fast"); ("dotColor", VStr "#00ffaa");
        ("notes", VArr [])]%string.

Definition wild_text : string := RefCodec.render wild_record.

Definition wild_app : App :=
  mkApp (initial_state today) (open_storage {[ APP_STATE_KEY := wild_text ]}) [].

(** A store that holds only the notes record of earlier versions. *)
Definition legacy_text : string := RefCodec.render (VArr [Note.to_val old_note]).

Definition legacy_storage : Storage := open_storage {[ NOTES_KEY := legacy_text ]}.

(** Three changes of the gap, 100 ms and 300 ms apart. *)
Definition gap_changes : list (Z * (State → State)) :=
  [(100, with_gap (VNum (of_Z 50))); (300, with_gap (VNum (of_Z 55)))].

(** The page some time after its last save: mounted, no timer pending. *)
Definition idle : Sched := mkSched fresh_app 0 [] 1 (Some 0%nat) true 0.

End Sample.

(** Further concrete stores and pages. *)
Module Cases.

(** A text that is not a value of the reference codec. *)
Definition garbage : string := "{not json".


(** No primary record, and a legacy record that does not parse. *)
Definition broken_legacy : App :=
  mkApp (initial_state Sample.today)
    (Sample.open_storage {[ NOTES_KEY := garbage ]}) [].

Definition initial_text : string :=
  RefCodec.render (toJSON (appState_of (initial_state Sample.today))).

Definition nan_text : string :=
  RefCodec.render (toJSON (appState_of Sample.nan_state)).

(** The text written for [Sample.nan_state] once it has been loaded back. *)
Definition null_text : string :=
  RefCodec.render (toJSON (appState_of (with_gap VNull Sample.nan_state))).

Definition migrated_text : string :=
  RefCodec.render
    (toJSON (appState_of (with_notes (VArr [Note.to_val Sample.old_note])
                            (initial_state Sample.today)))).

(** A primary record that is valid JSON of another shape: the text of an
    object without properties. *)
Definition empty_record_text : string := RefCodec.render (VObj []).

Definition shapeless_app : App :=
  mkApp (initial_state Sample.today)
    (Sample.open_storage {[ APP_STATE_KEY := empty_record_text ]}) [].


Definition page : Page :=
  mkPage (mkChrome false false true true) Sample.fresh_app.

(** Two changes of the gap, 600 ms and 2 s after the previous one. *)
Definition slow_changes : list (Z * (State → State)) :=
  [(600, with_gap (VNum (of_Z 50))); (2000, with_gap (VNum (of_Z 55)))].

End Cases.

(** ** Comparison lemmas on numbers *)

Section Compare.

Lemma SFcompare_refl x : isNaN x = false → SFcompare x x = Some Eq.
Proof.
  destruct x as [s|s| |s m e]; simpl; try done.
  - by destruct s.
  - intros _. rewrite Z.compare_refl.
    rewrite Pos.compare_cont_refl. by destruct s.
Qed.

Lemma SFcompare_antisym x y c :
  SFcompare x y = Some c → SFcompare y x = Some (CompOpp c).
Proof.
  destruct x as [sx|sx| |sx mx ex], y as [sy|sy| |sy my ey]; simpl;
    try discriminate;
    try (intros [= <-]; by repeat match goal with b : bool |- _ => destruct b end).
  intros [= <-]. f_equal.
  rewrite (Z.compare_antisym ex ey).
  change (Pos.compare_cont Eq my mx) with (Pos.compare_cont (CompOpp Eq) my mx).
  rewrite <- (Pos.compare_cont_antisym mx my Eq).
  destruct sx, sy; simpl; try done;
    destruct (ex ?= ey); simpl; try done;
    by rewrite ?CompOpp_involutive.
Qed.

Lemma SFleb_refl x : isNaN x = false → SFleb x x = true.
Proof. intros H. unfold SFleb. by rewrite SFcompare_refl. Qed.

Lemma SFleb_of_compare x y c :
  SFcompare x y = Some c → c ≠ Gt → SFleb x y = true.
Proof. unfold SFleb. intros ->. by destruct c. Qed.

Lemma SFleb_of_compare_flip x y c :
  SFcompare x y = Some c → c ≠ Lt → SFleb y x = true.
Proof.
  intros H Hc. apply SFcompare_antisym in H.
  apply (SFleb_of_compare _ _ _ H). by destruct c.
Qed.

Lemma SFleb_isNaN_l x y : SFleb x y = true → isNaN x = false.
Proof. by destruct x. Qed.

Lemma SFleb_isNaN_r x y : SFleb x y = true → isNaN y = false.
Proof. by destruct x, y. Qed.

End Compare.

(** [Math.max] and [Math.min] pick one of their arguments, on the stated
    side of the other, unless the comparison is undefined. *)
Lemma Math_max_spec lo x :
  isNaN lo = false → isNaN x = false →
  (Math_max lo x = lo ∨ Math_max lo x = x) ∧
  SFleb lo (Math_max lo x) = true ∧ SFleb x (Math_max lo x) = true.
Proof.
  intros Hlo Hx. unfold Math_max.
  destruct (SFcompare lo x) as [c|] eqn:Hc.
  - pose proof (SFleb_refl _ Hlo). pose proof (SFleb_refl _ Hx).
    destruct c.
    + destruct (isNegZero lo); (split; [auto|split]); auto;
        first [ by eapply SFleb_of_compare | by eapply SFleb_of_compare_flip ].
    + split; [auto|split]; auto. by eapply SFleb_of_compare.
    + split; [auto|split]; auto. by eapply SFleb_of_compare_flip.
  - by destruct lo, x.
Qed.

Lemma Math_min_spec hi x :
  isNaN hi = false → isNaN x = false →
  (Math_min hi x = hi ∨ Math_min hi x = x) ∧
  SFleb (Math_min hi x) hi = true ∧ SFleb (Math_min hi x) x = true.
Proof.
  intros Hhi Hx. unfold Math_min.
  destruct (SFcompare hi x) as [c|] eqn:Hc.
  - pose proof (SFleb_refl _ Hhi). pose proof (SFleb_refl _ Hx).
    destruct c.
    + destruct (isNegZero hi); (split; [auto|split]); auto;
        first [ by eapply SFleb_of_compare | by eapply SFleb_of_compare_flip ].
    + split; [auto|split]; auto. by eapply SFleb_of_compare.
    + split; [auto|split]; auto. by eapply SFleb_of_compare_flip.
  - by destruct hi, x.
Qed.

Lemma Math_max_NaN lo x : isNaN x = true → Math_max lo x = NaN.
Proof. destruct x; try done. by destruct lo. Qed.

Lemma Math_min_NaN hi x : isNaN x = true → Math_min hi x = NaN.
Proof. destruct x; try done. by destruct hi. Qed.

(** Clamping a sum that is a number lands between the bounds. *)
Lemma incrementValue_within value increment lo hi :
  SFleb lo hi = true →
  isNaN (add value increment) = false →
  within lo hi (incrementValue value increment lo hi) = true.
Proof.
  intros Hle Hsum. unfold incrementValue, within.
  pose proof (SFleb_isNaN_l _ _ Hle) as Hlo.
  pose proof (SFleb_isNaN_r _ _ Hle) as Hhi.
  destruct (Math_max_spec lo _ Hlo Hsum) as (Hpick & Hl & _).
  set (m := Math_max lo (add value increment)) in *.
  assert (Hm : isNaN m = false) by (by destruct Hpick as [-> | ->]).
  destruct (Math_min_spec hi m Hhi Hm) as (Hpick' & Hh & _).
  rewrite Hh, andb_true_r.
  destruct Hpick' as [-> | ->]; done.
Qed.

Lemma incrementValue_NaN value increment lo hi :
  isNaN (add value increment) = true →
  incrementValue value increment lo hi = NaN.
Proof.
  intros H. unfold incrementValue.
  rewrite (Math_max_NaN lo _ H). by apply Math_min_NaN.
Qed.

(** ** Steppers *)

Lemma bounds_ordered :
  SFleb GAP_MIN GAP_MAX = true ∧
  SFleb AMPLITUDE_MIN AMPLITUDE_MAX = true ∧
  SFleb SPEED_MIN SPEED_MAX = true.
Proof. by vm_compute. Qed.

(** C7, as amended. For every current value and every delta whose sum is a
    number (not NaN), the value [incrementValue] hands to the setter lies in
    the range of the cell: gap in [10,200], amplitude in [10,50], speed in
    [0.5,10]. *)
Theorem incrementValue_clamped (value increment : number) :
  isNaN (add value increment) = false →
  within GAP_MIN GAP_MAX
    (incrementValue value increment GAP_MIN GAP_MAX) = true ∧
  within AMPLITUDE_MIN AMPLITUDE_MAX
    (incrementValue value increment AMPLITUDE_MIN AMPLITUDE_MAX) = true ∧
  within SPEED_MIN SPEED_MAX
    (incrementValue value increment SPEED_MIN SPEED_MAX) = true.
Proof.
  intros Hsum. destruct bounds_ordered as (Hg & Ha & Hs).
  repeat split; by apply incrementValue_within.
Qed.

Lemma incrementValue_clamped_witness :
  isNaN (add (of_Z 198) (of_Z 5)) = false ∧
  within GAP_MIN GAP_MAX
    (incrementValue (of_Z 198) (of_Z 5) GAP_MIN GAP_MAX) = true.
Proof.
  split; [reflexivity|].
  apply (incrementValue_clamped (of_Z 198) (of_Z 5)). reflexivity.
Defined.

(** C7, as stated, fails when the current value is NaN: the clamped value
    is NaN, which is in no range. This is the state the plus button reaches
    from a gap cell holding [undefined]. *)
Lemma incrementValue_NaN_escapes :
  incrementValue NaN (of_Z 5) GAP_MIN GAP_MAX = NaN ∧
  within GAP_MIN GAP_MAX (incrementValue NaN (of_Z 5) GAP_MIN GAP_MAX) = false ∧
  (onGapPlus Sample.no_gap_state ≫= λ m, Some (gap (ui (m Sample.fresh_app).2)))
    = Some (VNum NaN).
Proof. by vm_compute. Qed.

(** An infinite current value is clamped like any other. *)
Example incrementValue_Infinity :
  incrementValue Infinity (of_Z (-5)) GAP_MIN GAP_MAX = GAP_MAX.
Proof. reflexivity. Qed.

(** The stepper handlers hand a number in range to their setter whenever the
    sum is defined and not NaN. *)
Lemma stepper_within cell setter increment lo hi snap value :
  SFleb lo hi = true →
  left_addend (cell snap) = Some value →
  isNaN (add value increment) = false →
  ∃ r, stepper cell setter increment lo hi snap = Some (setter (VNum r)) ∧
       within lo hi r = true.
Proof.
  intros Hle Hv Hsum. unfold stepper. rewrite Hv. simpl.
  eexists; split; [done|]. by apply incrementValue_within.
Qed.

(** ** Sums that are numbers *)

Lemma iter_pos_invariant {A} (P : A → Prop) (f : A → A) :
  (∀ x, P x → P (f x)) → ∀ n x, P x → P (SpecFloat.iter_pos f n x).
Proof.
  intros Hf. induction n as [n IH|n IH|]; intros x Hx; simpl; auto.
Qed.

Lemma shr_1_nonneg mrs : 0 ≤ shr_m mrs → 0 ≤ shr_m (shr_1 mrs).
Proof. destruct mrs as [[|[p|p|]|p] r s]; simpl; lia. Qed.

Lemma shr_nonneg mrs e n : 0 ≤ shr_m mrs → 0 ≤ shr_m (shr mrs e n).1.
Proof.
  intros Hm. destruct n as [|p|p]; simpl; try done.
  by apply iter_pos_invariant; [apply shr_1_nonneg|].
Qed.

Lemma shr_fexp_nonneg m e l : 0 ≤ m → 0 ≤ shr_m (shr_fexp prec emax m e l).1.
Proof.
  intros Hm. unfold shr_fexp. apply shr_nonneg.
  by destruct l as [|[]].
Qed.

Lemma round_nearest_even_nonneg m l : 0 ≤ m → 0 ≤ round_nearest_even m l.
Proof. intros Hm. destruct l as [|[]]; simpl; try done; [destruct (Z.even m)|]; lia. Qed.

Lemma binary_round_aux_number sx mx ex lx :
  0 ≤ mx → isNaN (binary_round_aux prec emax sx mx ex lx) = false.
Proof.
  intros Hm. unfold binary_round_aux.
  pose proof (shr_fexp_nonneg mx ex lx Hm) as H1.
  destruct (shr_fexp prec emax mx ex lx) as [mrs' e']. simpl in H1.
  pose proof (shr_fexp_nonneg _ e' loc_Exact
                (round_nearest_even_nonneg _ (loc_of_shr_record mrs') H1)) as H2.
  destruct (shr_fexp prec emax _ e' loc_Exact) as [mrs'' e'']. simpl in H2.
  destruct (shr_m mrs'') as [|m|m]; [done| |lia].
  by destruct (e'' <=? emax - prec).
Qed.

Lemma binary_normalize_number m e sz : isNaN (binary_normalize prec emax m e sz) = false.
Proof.
  destruct m as [|p|p]; simpl; [done| |]; unfold binary_round;
    destruct (shl_align _ _ _) as [mz ez]; by apply binary_round_aux_number.
Qed.

(** Adding a finite number to a number never gives NaN. *)
Lemma add_number x y :
  isNaN x = false → isFinite y = true → isNaN (add x y) = false.
Proof.
  destruct x as [sx|sx| |sx mx ex], y as [sy|sy| |sy my ey]; try done;
    try (by destruct sx, sy).
  intros _ _. apply binary_normalize_number.
Qed.

(** With a finite delta (the buttons use 5, -5, 0.5 and -0.5) and a cell that
    counts as a number other than NaN, a stepper hands a number in range to
    its setter. *)
Lemma stepper_button_within cell setter increment lo hi snap value :
  SFleb lo hi = true →
  isFinite increment = true →
  left_addend (cell snap) = Some value →
  isNaN value = false →
  ∃ r, stepper cell setter increment lo hi snap = Some (setter (VNum r)) ∧
       within lo hi r = true.
Proof.
  intros Hle Hfin Hv Hnum.
  apply (stepper_within _ _ _ _ _ _ value); auto using add_number.
Qed.

(** ** Notes *)

Section Trim.

Lemma trimEnd_head c r : is_white c = false → trimEnd (String c r) ≠ EmptyString.
Proof. intros H. simpl. destruct (trimEnd r); by rewrite ?H. Qed.

Lemma trimStart_blank s : blank s = true → trimStart s = EmptyString.
Proof.
  induction s as [|c r IH]; simpl; [done|].
  destruct (is_white c); simpl; [exact IH | done].
Qed.

Lemma trimStart_not_blank s :
  blank s = false → ∃ c r, trimStart s = String c r ∧ is_white c = false.
Proof.
  induction s as [|c r IH]; simpl; [done|].
  destruct (is_white c) eqn:Hc; simpl; [exact IH|].
  intros _. by exists c, r.
Qed.

(** [title.trim()] is the empty string exactly for a title made of white
    space only (the empty title included). *)
Lemma truthy_trim s : truthy_string (trim s) = negb (blank s).
Proof.
  unfold trim. destruct (blank s) eqn:Hb.
  - by rewrite trimStart_blank.
  - destruct (trimStart_not_blank s Hb) as (c & r & -> & Hc).
    pose proof (trimEnd_head c r Hc). by destruct (trimEnd (String c r)).
Qed.

End Trim.

(** C4. With an empty or white-space-only title (whatever the notes
    sequence and the other cells hold), [handleAddNote] returns without
    calling a setter: the application is left exactly as it was. *)
Theorem handleAddNote_blank_title snap now today app :
  blank (Draft.title (newNote snap)) = true →
  handleAddNote snap now today app = (Normal (), app).
Proof.
  intros Hb. unfold handleAddNote. by rewrite truthy_trim, Hb.
Qed.

Lemma handleAddNote_blank_title_witness :
  handleAddNote (with_newNote (Draft.mk "  " "text" Sample.today) Sample.form_state)
      1700000000123 Sample.today Sample.noted_app
    = (Normal (), Sample.noted_app).
Proof. apply handleAddNote_blank_title. reflexivity. Defined.

Lemma timestamp_id_fresh (now : Z) (stamps : list Z) :
  now ∉ stamps →
  Normal (VStr (timestamp_id now)) ∉
    ((λ t, Normal (VStr (timestamp_id t))) <$> stamps : list (Completion JSVal)).
Proof.
  intros Hnew (t & Heq & Ht)%list_elem_of_fmap.
  injection Heq as Heq. apply (inj pretty) in Heq. by subst t.
Qed.

(** C3, as amended. With a title that is not blank and any prior notes
    array, [handleAddNote] leaves an array one longer, whose element 0 is the
    new note (the draft plus an id equal to the decimal string of the clock
    reading) and whose remaining elements are the prior notes in order; the
    form is reset and hidden. The id is new among the notes whenever no prior
    note carries it, as is the case when the prior ids are the decimal
    strings of other clock readings. *)
Theorem handleAddNote_prepends snap now today app prior :
  blank (Draft.title (newNote snap)) = false →
  notes (ui app) = VArr prior →
  let newNoteWithId :=
    VObj [("title", VStr (Draft.title (newNote snap)));
          ("content", VStr (Draft.content (newNote snap)));
          ("date", VStr (Draft.date (newNote snap)));
          ("id", VStr (timestamp_id now))]%string in
  handleAddNote snap now today app =
    (Normal (),
     update_ui (λ st, with_showNoteForm false
                        (with_newNote (Draft.mk "" "" today)
                           (with_notes (VArr (newNoteWithId :: prior)) st))) app) ∧
  notes (ui (handleAddNote snap now today app).2) = VArr (newNoteWithId :: prior) ∧
  length (newNoteWithId :: prior) = S (length prior) ∧
  (newNoteWithId :: prior) !! 0%nat = Some newNoteWithId ∧
  Get newNoteWithId "id" = Normal (VStr (timestamp_id now)) ∧
  (Normal (VStr (timestamp_id now)) ∉ note_ids prior →
   NoDup (note_ids prior) → NoDup (note_ids (newNoteWithId :: prior))) ∧
  (∀ stamps : list Z,
     note_ids prior = (λ t, Normal (VStr (timestamp_id t))) <$> stamps →
     now ∉ stamps →
     Normal (VStr (timestamp_id now)) ∉ note_ids prior).
Proof.
  intros Hb Hn newNoteWithId.
  assert (Hrun : handleAddNote snap now today app =
    (Normal (),
     update_ui (λ st, with_showNoteForm false
                        (with_newNote (Draft.mk "" "" today)
                           (with_notes (VArr (newNoteWithId :: prior)) st))) app)).
  { unfold handleAddNote. rewrite truthy_trim, Hb. simpl.
    unfold mbind, M_bind, set_state_with. by rewrite Hn. }
  split; [exact Hrun|]. rewrite Hrun.
  repeat split; try done.
  - intros Hfresh Hnd. unfold note_ids. rewrite fmap_cons.
    by apply NoDup_cons.
  - intros stamps -> Hnew. by apply timestamp_id_fresh.
Qed.

Lemma handleAddNote_prepends_witness :
  notes (ui (handleAddNote Sample.form_state 1700000000123 Sample.today
               Sample.noted_app).2)
  = VArr [VObj [("title", VStr "Session 1"); ("content", VStr "first");
                ("date", VStr "2024-05-17"); ("id", VStr "1700000000123")]%string;
          Note.to_val Sample.old_note].
Proof.
  refine (proj1 (proj2 (handleAddNote_prepends Sample.form_state 1700000000123
    Sample.today Sample.noted_app [Note.to_val Sample.old_note] _ _)));
    reflexivity.
Defined.

(** C3, as stated, fails: when the clock reads the value a listed note was
    created at, the new note receives the id of that note. *)
Lemma handleAddNote_repeats_id :
  match notes (ui (handleAddNote Sample.form_state 1700000000000 Sample.today
                     Sample.noted_app).2) with
  | VArr elems => note_ids elems
  | _ => []
  end = [Normal (VStr "1700000000000"); Normal (VStr "1700000000000")].
Proof. by vm_compute. Qed.

Lemma filter_keeps_all {A} (P : A → Prop) `{∀ x, Decision (P x)} (l : list A) :
  Forall P l → filter P l = l.
Proof.
  induction 1 as [|x l Hx _ IH]; [done|].
  by rewrite filter_cons, decide_True, IH.
Qed.

Lemma filter_by_id_typed (id : string) (l : list Note.t) :
  filter_by_id id (Note.to_val <$> l)
  = Normal (Note.to_val <$> filter (λ n, Note.id n ≠ id) l).
Proof.
  induction l as [|n l IH]; [done|].
  rewrite fmap_cons. simpl. rewrite IH. simpl. rewrite filter_cons.
  destruct (String.eqb_spec (Note.id n) id) as [Heq|Hne]; simpl.
  - by rewrite decide_False by (by intros ?).
  - by rewrite decide_True.
Qed.

(** C5. On a notes array of typed notes, [handleDeleteNote id] returns
    normally and leaves in the notes cell the notes whose id differs from
    [id], in their original order; the other cells, the store and the
    console are as before. The notes removed are exactly those with that id:
    a single note carrying it is the one note that goes, and when no note
    has it the cell holds the array it held. *)
Theorem handleDeleteNote_filters (id : string) (l : list Note.t) (app : App) :
  notes (ui app) = VArr (Note.to_val <$> l) →
  let kept := filter (λ n, Note.id n ≠ id) l in
  let after := (handleDeleteNote id app).2 in
  (handleDeleteNote id app).1 = Normal () ∧
  notes (ui after) = VArr (Note.to_val <$> kept) ∧
  (gap (ui after) = gap (ui app) ∧ amplitude (ui after) = amplitude (ui app) ∧
   speed (ui after) = speed (ui app) ∧ dotColor (ui after) = dotColor (ui app) ∧
   showNoteForm (ui after) = showNoteForm (ui app) ∧
   newNote (ui after) = newNote (ui app) ∧
   localStorage after = localStorage app ∧ console after = console app) ∧
  kept `sublist_of` l ∧
  (∀ n, n ∈ kept ↔ n ∈ l ∧ Note.id n ≠ id) ∧
  (∀ l1 n l2, l = l1 ++ n :: l2 → Note.id n = id →
     Forall (λ m, Note.id m ≠ id) (l1 ++ l2) →
     notes (ui after) = VArr (Note.to_val <$> l1 ++ l2)) ∧
  (Forall (λ n, Note.id n ≠ id) l → notes (ui after) = notes (ui app)).
Proof.
  intros Hn kept after.
  assert (Hrun : handleDeleteNote id app
                 = (Normal (), update_ui (with_notes (VArr (Note.to_val <$> kept))) app)).
  { unfold handleDeleteNote, set_state_with. rewrite Hn.
    by rewrite filter_by_id_typed. }
  assert (Hnotes : notes (ui after) = VArr (Note.to_val <$> kept)).
  { unfold after. by rewrite Hrun. }
  split; [by rewrite Hrun|]. split; [exact Hnotes|].
  split; [unfold after; by rewrite Hrun|].
  split; [apply sublist_filter|].
  split; [|split].
  - intros n. unfold kept. rewrite list_elem_of_filter. tauto.
  - intros l1 n l2 -> Hid Hrest. rewrite Hnotes. do 2 f_equal. unfold kept.
    rewrite filter_app, filter_cons, decide_False by (by intros ?).
    apply Forall_app in Hrest as [H1 H2].
    f_equal; by apply filter_keeps_all.
  - intros Hall. rewrite Hnotes, Hn. do 2 f_equal. by apply filter_keeps_all.
Qed.

Lemma handleDeleteNote_filters_witness :
  notes (ui Sample.noted_app) = VArr [Note.to_val Sample.old_note] ∧
  (handleDeleteNote "1700000000000" Sample.noted_app).1 = Normal () ∧
  notes (ui (handleDeleteNote "1700000000000" Sample.noted_app).2) = VArr [].
Proof.
  split; [reflexivity|].
  destruct (handleDeleteNote_filters "1700000000000" [Sample.old_note]
              Sample.noted_app eq_refl) as (Hret & Hnotes & _).
  split; [exact Hret | exact Hnotes].
Defined.

(** ** Induction on values *)

Lemma JSVal_nested_ind (P : JSVal → Prop) :
  P VUndefined → P VNull → (∀ b, P (VBool b)) → (∀ x, P (VNum x)) →
  (∀ s, P (VStr s)) →
  (∀ elems, Forall P elems → P (VArr elems)) →
  (∀ props, Forall (λ p, P p.2) props → P (VObj props)) →
  ∀ v, P v.
Proof.
  intros HU HN HB HD HS HA HO.
  fix IH 1. intros [ | |b|x|s|elems|props].
  - exact HU.
  - exact HN.
  - apply HB.
  - apply HD.
  - apply HS.
  - apply HA. induction elems as [|v elems IHl]; constructor; [apply IH | exact IHl].
  - apply HO. induction props as [|[k v] props IHl]; constructor; [apply IH | exact IHl].
Qed.

(** ** The reference codec is faithful *)

Module RefCodecFacts.
Import RefCodec.

Lemma dec_enc_pos p r : dec_pos (enc_pos p r) = Some (p, r).
Proof. induction p as [q IH|q IH|]; simpl; by rewrite ?IH. Qed.

Lemma dec_enc_nat n r : dec_nat (enc_nat n r) = Some (n, r).
Proof.
  unfold dec_nat, enc_nat. rewrite dec_enc_pos. simpl.
  by rewrite SuccNat2Pos.pred_id.
Qed.

Lemma dec_enc_bool b r : dec_bool (enc_bool b r) = Some (b, r).
Proof. by destruct b. Qed.

Lemma dec_enc_Z z r : dec_Z (enc_Z z r) = Some (z, r).
Proof. destruct z; simpl; by rewrite ?dec_enc_pos. Qed.

Lemma take_chars_app s r : take_chars (String.length s) (String.append s r) = Some (s, r).
Proof. induction s as [|c s IH]; simpl; by rewrite ?IH. Qed.

Lemma dec_enc_string s r : dec_string (enc_string s r) = Some (s, r).
Proof.
  unfold dec_string, enc_string. rewrite dec_enc_nat. simpl. apply take_chars_app.
Qed.

Lemma dec_enc_number x r : dec_number (enc_number x r) = Some (x, r).
Proof.
  destruct x as [[]|[]| |[] m e]; simpl; rewrite ?dec_enc_pos; simpl; rewrite ?dec_enc_Z; done.
Qed.

Lemma dec_many_enc {A} (enc : A → string → string) dec (l : list A) r :
  Forall (λ x, ∀ r', dec (enc x r') = Some (x, r')) l →
  dec_many dec (length l) (foldr enc r l) = Some (l, r).
Proof.
  induction 1 as [|x l Hx _ IH]; simpl; [done|].
  rewrite Hx. simpl. by rewrite IH.
Qed.

Lemma dec_enc_val v : ∀ fuel r, (height v ≤ fuel)%nat → dec_val fuel (enc_val v r) = Some (v, r).
Proof.
  induction v as [ | |b|x|s|elems IH|props IH] using JSVal_nested_ind;
    intros [|fuel] r Hf; simpl in Hf; try lia; simpl.
  - done.
  - done.
  - by destruct b.
  - by rewrite dec_enc_number.
  - by rewrite dec_enc_string.
  - rewrite dec_enc_nat. simpl.
    rewrite (dec_many_enc enc_val); [done|].
    apply Nat.succ_le_mono in Hf. clear r.
    induction IH as [|v elems Hv _ IHl]; constructor; simpl in Hf.
    + intros r'. apply Hv. lia.
    + apply IHl. lia.
  - rewrite dec_enc_nat. simpl.
    rewrite (dec_many_enc (λ p acc, enc_string p.1 (enc_val p.2 acc))); [done|].
    apply Nat.succ_le_mono in Hf. clear r.
    induction IH as [|[k v] props Hv _ IHl]; constructor; simpl in Hf.
    + intros r'. simpl. rewrite dec_enc_string. simpl. rewrite Hv by (simpl; lia). done.
    + apply IHl. lia.
Qed.

Lemma length_enc_pos p r : (String.length r < String.length (enc_pos p r))%nat.
Proof. induction p; simpl; lia. Qed.

Lemma length_enc_Z z r : (String.length r < String.length (enc_Z z r))%nat.
Proof. destruct z; simpl; try lia; pose proof (length_enc_pos p r); lia. Qed.

Lemma length_append s r : String.length (String.append s r) = (String.length s + String.length r)%nat.
Proof. induction s as [|c s IH]; simpl; [done | by rewrite IH]. Qed.

Lemma length_enc_string s r : (String.length r < String.length (enc_string s r))%nat.
Proof.
  unfold enc_string, enc_nat.
  pose proof (length_enc_pos (Pos.of_succ_nat (String.length s)) (String.append s r)).
  rewrite length_append in *. lia.
Qed.

Lemma length_enc_number x r : (String.length r < String.length (enc_number x r))%nat.
Proof.
  destruct x as [b|b| |b m e]; simpl; try lia.
  pose proof (length_enc_pos m (enc_Z e r)). pose proof (length_enc_Z e r). lia.
Qed.

Lemma height_le_length v : ∀ r, (height v + String.length r ≤ String.length (enc_val v r))%nat.
Proof.
  induction v as [ | |b|x|s|elems IH|props IH] using JSVal_nested_ind; intros r; simpl; try lia.
  - pose proof (length_enc_number x r). lia.
  - pose proof (length_enc_string s r). lia.
  - pose proof (length_enc_pos (Pos.of_succ_nat (length elems)) (foldr enc_val r elems)).
    unfold enc_nat.
    enough (foldr (λ w h, Nat.max (height w) h) O elems + String.length r
            ≤ String.length (foldr enc_val r elems))%nat by lia.
    clear H. induction IH as [|v elems Hv _ IHl]; simpl; [lia|].
    specialize (Hv (foldr enc_val r elems)). lia.
  - pose proof (length_enc_pos (Pos.of_succ_nat (length props))
      (foldr (λ p acc, enc_string p.1 (enc_val p.2 acc)) r props)).
    unfold enc_nat.
    enough (foldr (λ p h, Nat.max (height p.2) h) O props + String.length r
            ≤ String.length (foldr (λ p acc, enc_string p.1 (enc_val p.2 acc)) r props))%nat by lia.
    clear H. induction IH as [|[k v] props Hv _ IHl]; simpl; [lia|].
    simpl in Hv.
    specialize (Hv (foldr (λ p acc, enc_string p.1 (enc_val p.2 acc)) r props)).
    pose proof (length_enc_string k (enc_val v (foldr (λ p acc, enc_string p.1 (enc_val p.2 acc)) r props))).
    lia.
Qed.

Lemma read_render v : read (render v) = Normal v.
Proof.
  unfold read, render. rewrite dec_enc_val; [done|].
  pose proof (height_le_length v EmptyString). lia.
Qed.

Lemma codec_faithful : JSON_faithful.
Proof.
  intros props text [= <-]. split; [done|]. apply read_render.
Qed.
End RefCodecFacts.

(** ** Persistence *)

Section Persistence.

Context `{codec : JSON}.

Ltac run :=
  unfold mbind, M_bind, mret, M_ret, try_catch, lift, localStorage_getItem,
    localStorage_setItem, console_error, setGap, setAmplitude, setSpeed,
    setDotColor, setNotes, set_state;
  simpl.

(** [saveAppState] as one case analysis on the write. *)
Lemma saveAppState_run snap app :
  saveAppState snap app =
    match JSON_stringify (appState_of snap)
          ≫= setItem (localStorage app) APP_STATE_KEY with
    | Normal ls => (Normal (), mkApp (ui app) ls (console app))
    | Throw e =>
        (Normal (), log_error "Error saving app state to localStorage:" e app)
    end.
Proof.
  unfold saveAppState. run.
  destruct (JSON_stringify (appState_of snap)) as [text|e]; simpl; [|done].
  by destruct (setItem (localStorage app) APP_STATE_KEY text).
Qed.

(** [loadAppState] as one case analysis on the stored record. *)
Lemma loadAppState_run app :
  loadAppState app =
    match getItem (localStorage app) APP_STATE_KEY with
    | Throw e =>
        (Normal false, log_error "Error loading app state from localStorage:" e app)
    | Normal None => (Normal false, app)
    | Normal (Some text) =>
        if truthy_string text then
          match JSON_parse text with
          | Throw e =>
              (Normal false,
               log_error "Error loading app state from localStorage:" e app)
          | Normal (VUndefined | VNull) =>
              (Normal false,
               log_error "Error loading app state from localStorage:" TypeError app)
          | Normal parsedState => (Normal true, update_ui (adopt parsedState) app)
          end
        else (Normal false, app)
    end.
Proof.
  unfold loadAppState. run.
  destruct (getItem (localStorage app) APP_STATE_KEY) as [[text|]|e]; simpl;
    try done.
  destruct (truthy_string text); simpl; [|done].
  destruct (JSON_parse text) as [[]|e]; simpl; done.
Qed.

Lemma getItem_readable ls key :
  readable ls = true → getItem ls key = Normal (items ls !! key).
Proof. unfold getItem. by intros ->. Qed.

(** C8. [saveAppState] hands the object holding the five cells of its
    render, under the names gap, amplitude, speed, dotColor and notes, to
    [JSON.stringify] and writes the text under the primary key. Whatever
    fails (the serialization throws, or the store refuses the write), the
    call returns normally, the cells and the store are as before, and the
    error is on the console. *)
Theorem saveAppState_contains_failures (snap : State) (app : App) :
  ∃ app',
    saveAppState snap app = (Normal (), app') ∧
    ui app' = ui app ∧
    match JSON_stringify
            (VObj [("gap", gap snap); ("amplitude", amplitude snap);
                   ("speed", speed snap); ("dotColor", dotColor snap);
                   ("notes", notes snap)]%string) with
    | Normal text =>
        if accepts (localStorage app) APP_STATE_KEY text then
          items (localStorage app')
            = <[APP_STATE_KEY := text]> (items (localStorage app)) ∧
          items (localStorage app') !! "emdr-app-state"%string = Some text ∧
          console app' = console app
        else
          localStorage app' = localStorage app ∧
          console app' = console app ++
            [("Error saving app state to localStorage:"%string, QuotaExceededError)]
    | Throw e =>
        localStorage app' = localStorage app ∧
        console app' = console app ++
          [("Error saving app state to localStorage:"%string, e)]
    end.
Proof.
  rewrite saveAppState_run. unfold appState_of.
  destruct (JSON_stringify _) as [text|e]; simpl.
  - unfold setItem.
    destruct (accepts (localStorage app) APP_STATE_KEY text); simpl;
      eexists; (split; [reflexivity|]); [|done].
    split; [done|]. split; [done|]. split; [|done].
    apply lookup_insert_eq.
  - eexists; (split; [reflexivity|]); done.
Qed.

(** C2. [loadAppState] reads the record under the primary key. When the
    record is present, not empty, and parses to any value other than
    [null], each of the five cells receives the property of its name of the
    parsed value ([undefined] where the value has none) and [true] is
    returned: for an object carrying the five properties these are the five
    values stored, and for valid JSON of any other shape the cells are
    overwritten all the same. When the record is absent or empty, [false]
    is returned and nothing changes; when the store cannot be read, the
    text is not valid JSON, or it is the text of [null], [false] is
    returned, the cells and the store are as they were, and the error is
    on the console. *)
Theorem loadAppState_outcomes (app : App) :
  let outcome := (loadAppState app).1 in
  let after := (loadAppState app).2 in
  (∀ text parsedState,
     getItem (localStorage app) APP_STATE_KEY = Normal (Some text) →
     truthy_string text = true →
     JSON_parse text = Normal parsedState →
     parsedState ≠ VNull → parsedState ≠ VUndefined →
     outcome = Normal true ∧
     gap (ui after) = property parsedState "gap" ∧
     amplitude (ui after) = property parsedState "amplitude" ∧
     speed (ui after) = property parsedState "speed" ∧
     dotColor (ui after) = property parsedState "dotColor" ∧
     notes (ui after) = property parsedState "notes" ∧
     showNoteForm (ui after) = showNoteForm (ui app) ∧
     newNote (ui after) = newNote (ui app) ∧
     localStorage after = localStorage app ∧ console after = console app) ∧
  (∀ text props g a s d n,
     getItem (localStorage app) APP_STATE_KEY = Normal (Some text) →
     truthy_string text = true →
     JSON_parse text = Normal (VObj props) →
     prop_lookup "gap" props = Some g →
     prop_lookup "amplitude" props = Some a →
     prop_lookup "speed" props = Some s →
     prop_lookup "dotColor" props = Some d →
     prop_lookup "notes" props = Some n →
     outcome = Normal true ∧
     gap (ui after) = g ∧ amplitude (ui after) = a ∧ speed (ui after) = s ∧
     dotColor (ui after) = d ∧ notes (ui after) = n) ∧
  (∀ text,
     getItem (localStorage app) APP_STATE_KEY = Normal (Some text) →
     truthy_string text = true →
     JSON_parse text = Normal (VObj []) →
     outcome = Normal true ∧
     gap (ui after) = VUndefined ∧ amplitude (ui after) = VUndefined ∧
     speed (ui after) = VUndefined ∧ dotColor (ui after) = VUndefined ∧
     notes (ui after) = VUndefined) ∧
  (getItem (localStorage app) APP_STATE_KEY = Normal None ∨
   getItem (localStorage app) APP_STATE_KEY = Normal (Some EmptyString) →
     outcome = Normal false ∧ after = app) ∧
  (∀ text e,
     getItem (localStorage app) APP_STATE_KEY = Throw e ∨
     getItem (localStorage app) APP_STATE_KEY = Normal (Some text) ∧
     truthy_string text = true ∧
     (JSON_parse text = Throw e ∨
      e = TypeError ∧ JSON_parse text = Normal VNull) →
     outcome = Normal false ∧
     ui after = ui app ∧ localStorage after = localStorage app ∧
     console after
       = console app ++ [("Error loading app state from localStorage:"%string, e)]).
Proof.
  intros outcome after. unfold outcome, after. rewrite loadAppState_run.
  assert (Hadopt : ∀ text parsedState,
    getItem (localStorage app) APP_STATE_KEY = Normal (Some text) →
    truthy_string text = true →
    JSON_parse text = Normal parsedState →
    parsedState ≠ VNull → parsedState ≠ VUndefined →
    match getItem (localStorage app) APP_STATE_KEY with
    | Throw e =>
        (Normal false, log_error "Error loading app state from localStorage:" e app)
    | Normal None => (Normal false, app)
    | Normal (Some text) =>
        if truthy_string text then
          match JSON_parse text with
          | Throw e =>
              (Normal false,
               log_error "Error loading app state from localStorage:" e app)
          | Normal (VUndefined | VNull) =>
              (Normal false,
               log_error "Error loading app state from localStorage:" TypeError app)
          | Normal parsedState => (Normal true, update_ui (adopt parsedState) app)
          end
        else (Normal false, app)
    end = (Normal true, update_ui (adopt parsedState) app)).
  { intros text parsedState -> -> -> Hnull Hundef. by destruct parsedState. }
  split; [|split; [|split; [|split]]].
  - intros text parsedState Hget Ht Hp Hnull Hundef.
    rewrite (Hadopt text parsedState) by done. done.
  - intros text props g a s d n Hget Ht Hp Hg Ha Hs Hd Hn.
    rewrite (Hadopt text (VObj props)) by done.
    unfold adopt, property. simpl. by rewrite Hg, Ha, Hs, Hd, Hn.
  - intros text Hget Ht Hp.
    rewrite (Hadopt text (VObj [])) by done. done.
  - by intros [-> | ->].
  - intros text e [-> | (-> & -> & [-> | [-> ->]])]; done.
Qed.

(** C10. Whatever value other than [null] the stored text parses to,
    [loadAppState] reports success and each cell receives the property of
    that name as it is: nothing is clamped or checked. So a gap, amplitude
    or speed that is outside its range, or not a number, is in the cells
    after the load, and the cells are then out of bounds. *)
Theorem loadAppState_adopts_as_is (app : App) (text : string) (parsedState : JSVal) :
  readable (localStorage app) = true →
  items (localStorage app) !! APP_STATE_KEY = Some text →
  truthy_string text = true →
  JSON_parse text = Normal parsedState →
  parsedState ≠ VNull → parsedState ≠ VUndefined →
  loadAppState app = (Normal true, update_ui (adopt parsedState) app) ∧
  gap (ui (loadAppState app).2) = property parsedState "gap" ∧
  amplitude (ui (loadAppState app).2) = property parsedState "amplitude" ∧
  speed (ui (loadAppState app).2) = property parsedState "speed" ∧
  (cell_within GAP_MIN GAP_MAX (property parsedState "gap") = false ∨
   cell_within AMPLITUDE_MIN AMPLITUDE_MAX (property parsedState "amplitude") = false ∨
   cell_within SPEED_MIN SPEED_MAX (property parsedState "speed") = false →
   in_bounds (ui (loadAppState app).2) = false).
Proof.
  intros Hr Hit Ht Hp Hnull Hundef.
  assert (Hrun : loadAppState app = (Normal true, update_ui (adopt parsedState) app)).
  { rewrite loadAppState_run, (getItem_readable _ _ Hr), Hit, Ht, Hp.
    by destruct parsedState. }
  rewrite Hrun. simpl. repeat split; try done.
  unfold in_bounds, adopt. simpl.
  intros [-> | [-> | ->]]; by rewrite ?andb_false_r.
Qed.

(** C6. When the store holds no record under the primary key and a
    non-empty, parseable record under the legacy key, the start-up effect
    leaves the settings at their initial values and puts the parsed legacy
    value in the notes cell. *)
Theorem loadOnMount_legacy_fallback (today : string) (ls : Storage)
    (log : list (string * Exn)) (text : string) (legacy : JSVal) :
  readable ls = true →
  items ls !! APP_STATE_KEY = None →
  items ls !! NOTES_KEY = Some text →
  truthy_string text = true →
  JSON_parse text = Normal legacy →
  loadOnMount (mkApp (initial_state today) ls log)
    = (Normal (), mkApp (with_notes legacy (initial_state today)) ls log) ∧
  gap (with_notes legacy (initial_state today)) = VNum (of_Z 40) ∧
  amplitude (with_notes legacy (initial_state today)) = VNum (of_Z 50) ∧
  speed (with_notes legacy (initial_state today)) = VNum (of_Z 1) ∧
  dotColor (with_notes legacy (initial_state today)) = VStr "#00ffaa" ∧
  notes (with_notes legacy (initial_state today)) = legacy.
Proof.
  intros Hr Hnone Hsome Ht Hp. split; [|done].
  unfold loadOnMount, mbind at 1, M_bind at 1.
  rewrite loadAppState_run. simpl.
  rewrite (getItem_readable _ _ Hr), Hnone. simpl.
  run. rewrite (getItem_readable _ _ Hr), Hsome, Ht. simpl.
  by rewrite Hp.
Qed.

End Persistence.

(** Saving to a store that refuses the write: the call returns normally,
    nothing is stored, the error is on the console. *)
Example saveAppState_full_store :
  saveAppState (codec := RefCodec.codec) (initial_state Sample.today)
    (mkApp (initial_state Sample.today) (Sample.full_storage ∅) [])
  = (Normal (),
     mkApp (initial_state Sample.today) (Sample.full_storage ∅)
       [("Error saving app state to localStorage:"%string, QuotaExceededError)]).
Proof. reflexivity. Qed.

(** ** Save, then load *)

Section RoundTrip.
Context `{codec : JSON}.
Hypothesis faithful : JSON_faithful.



Lemma lookup_json_skip k k' v rest :
  String.eqb k' k = false →
  prop_lookup k (omap (json_prop toJSON) ((k', v) :: rest))
  = prop_lookup k (omap (json_prop toJSON) rest).
Proof. intros Hk. destruct v; simpl; by rewrite ?Hk. Qed.

Lemma lookup_json_hit k v rest :
  prop_lookup k (omap (json_prop toJSON) rest) = None →
  default VUndefined (prop_lookup k (omap (json_prop toJSON) ((k, v) :: rest)))
  = reload v.
Proof.
  intros Hk. destruct v;
    [ change (default VUndefined (prop_lookup k (omap (json_prop toJSON) rest))
              = VUndefined); by rewrite Hk | .. ];
    simpl; by rewrite String.eqb_refl.
Qed.

Ltac saved_property :=
  unfold property, appState_of, toJSON; fold toJSON; unfold Get;
  repeat (rewrite lookup_json_skip by reflexivity);
  apply lookup_json_hit;
  repeat (rewrite lookup_json_skip by reflexivity);
  reflexivity.

Lemma property_saved snap :
  property (toJSON (appState_of snap)) "gap" = reload (gap snap) ∧
  property (toJSON (appState_of snap)) "amplitude" = reload (amplitude snap) ∧
  property (toJSON (appState_of snap)) "speed" = reload (speed snap) ∧
  property (toJSON (appState_of snap)) "dotColor" = reload (dotColor snap) ∧
  property (toJSON (appState_of snap)) "notes" = reload (notes snap).
Proof. repeat split; saved_property. Qed.

Lemma adopt_saved snap st :
  adopt (toJSON (appState_of snap)) st =
  with_notes (reload (notes snap)) (with_dotColor (reload (dotColor snap))
    (with_speed (reload (speed snap)) (with_amplitude (reload (amplitude snap))
      (with_gap (reload (gap snap)) st)))).
Proof.
  destruct (property_saved snap) as (Hg & Ha & Hs & Hd & Hn).
  unfold adopt. by rewrite Hg, Ha, Hs, Hd, Hn.
Qed.

(** Saving any cells and loading the record written: every cell comes
    back as [reload] of what it held. *)
Lemma save_then_load snap app text :
  JSON_stringify (appState_of snap) = Normal text →
  accepts (localStorage app) APP_STATE_KEY text = true →
  readable (localStorage app) = true →
  ∃ saved,
    saveAppState snap app = (Normal (), saved) ∧
    items (localStorage saved) !! APP_STATE_KEY = Some text ∧
    loadAppState saved =
      (Normal true,
       update_ui (λ st, with_notes (reload (notes snap))
         (with_dotColor (reload (dotColor snap))
           (with_speed (reload (speed snap))
             (with_amplitude (reload (amplitude snap))
               (with_gap (reload (gap snap)) st))))) saved).
Proof.
  intros Hs Hw Hr. destruct (faithful _ _ Hs) as [Ht Hp].
  rewrite saveAppState_run, Hs. simpl. unfold setItem. rewrite Hw.
  eexists; split; [reflexivity|]. simpl. split; [apply lookup_insert_eq|].
  rewrite loadAppState_run. unfold getItem. simpl.
  rewrite Hr, lookup_insert_eq, Ht, Hp.
  unfold update_ui. simpl. rewrite <- adopt_saved. done.
Qed.


End RoundTrip.



(** ** Witnesses of the persistence theorems on the reference codec *)

Lemma loadAppState_outcomes_witness :
  (loadAppState (codec := RefCodec.codec) Sample.stored_app).1 = Normal true ∧
  gap (ui (loadAppState (codec := RefCodec.codec) Sample.stored_app).2)
    = VNum (of_Z 120) ∧
  amplitude (ui (loadAppState (codec := RefCodec.codec) Sample.stored_app).2)
    = VNum (of_Z 35) ∧
  speed (ui (loadAppState (codec := RefCodec.codec) Sample.stored_app).2)
    = VNum (lit 5 (-1)) ∧
  dotColor (ui (loadAppState (codec := RefCodec.codec) Sample.stored_app).2)
    = VStr "#ff0000" ∧
  notes (ui (loadAppState (codec := RefCodec.codec) Sample.stored_app).2)
    = VArr [Note.to_val (Note.mk "1700000000000" "Session 1" "calm" "2024-05-16")].
Proof.
  refine (proj1 (proj2 (loadAppState_outcomes (codec := RefCodec.codec) Sample.stored_app))
            Sample.plain_text _ _ _ _ _ _ _ _ _ _ _ _ _ _);
    [ by vm_compute | reflexivity | by vm_compute | reflexivity .. ].
Defined.

(** C2, as stated, fails for a record that is valid JSON of another shape:
    the text of an object without properties is loaded with success, and
    the five cells, which held their initial values, hold [undefined]. *)
Lemma loadAppState_accepts_other_shape :
  items (localStorage Cases.shapeless_app) !! APP_STATE_KEY
    = Some Cases.empty_record_text ∧
  JSON_parse (JSON := RefCodec.codec) Cases.empty_record_text = Normal (VObj []) ∧
  gap (ui Cases.shapeless_app) = VNum (of_Z 40) ∧
  notes (ui Cases.shapeless_app) = VArr [] ∧
  (loadAppState (codec := RefCodec.codec) Cases.shapeless_app).1 = Normal true ∧
  gap (ui (loadAppState (codec := RefCodec.codec) Cases.shapeless_app).2)
    = VUndefined ∧
  amplitude (ui (loadAppState (codec := RefCodec.codec) Cases.shapeless_app).2)
    = VUndefined ∧
  speed (ui (loadAppState (codec := RefCodec.codec) Cases.shapeless_app).2)
    = VUndefined ∧
  dotColor (ui (loadAppState (codec := RefCodec.codec) Cases.shapeless_app).2)
    = VUndefined ∧
  notes (ui (loadAppState (codec := RefCodec.codec) Cases.shapeless_app).2)
    = VUndefined.
Proof. by vm_compute. Qed.

Lemma loadAppState_adopts_as_is_witness :
  gap (ui (loadAppState (codec := RefCodec.codec) Sample.wild_app).2) = VNum (of_Z 1000) ∧
  speed (ui (loadAppState (codec := RefCodec.codec) Sample.wild_app).2) = VStr "fast" ∧
  in_bounds (ui (loadAppState (codec := RefCodec.codec) Sample.wild_app).2) = false.
Proof.
  destruct (loadAppState_adopts_as_is (codec := RefCodec.codec) Sample.wild_app
              Sample.wild_text Sample.wild_record)
    as (_ & Hg & _ & Hs & Hb);
    [ reflexivity | by vm_compute | reflexivity | by vm_compute | done | done | ].
  split; [exact Hg|]. split; [exact Hs|]. apply Hb. by left.
Defined.

Lemma loadOnMount_legacy_fallback_witness :
  loadOnMount (codec := RefCodec.codec)
    (mkApp (initial_state Sample.today) Sample.legacy_storage [])
  = (Normal (),
     mkApp (with_notes (VArr [Note.to_val Sample.old_note]) (initial_state Sample.today))
       Sample.legacy_storage []).
Proof.
  refine (proj1 (loadOnMount_legacy_fallback (codec := RefCodec.codec) Sample.today
            Sample.legacy_storage [] Sample.legacy_text
            (VArr [Note.to_val Sample.old_note]) _ _ _ _ _));
    [ reflexivity | by vm_compute | by vm_compute | reflexivity | by vm_compute ].
Defined.

(** ** The debounced save *)

Section Debounce.
Context `{codec : JSON}.

Lemma tracked_inv s :
  tracked s = true →
  timers s = [] ∨ ∃ id tm, timers s = [(id, tm)] ∧ saveTimeout s = Some id.
Proof.
  unfold tracked. destruct (timers s) as [|[id tm] [|? ?]]; [by left| |done].
  destruct (saveTimeout s) as [id'|]; [|done].
  intros ->%Nat.eqb_eq. right. by exists id', tm.
Qed.

Lemma clear_only_timer (id : nat) (tm : Timer) :
  filter (λ x : nat * Timer, x.1 ≠ id) [(id, tm)] = [].
Proof. rewrite filter_cons, decide_False; [done|]. simpl. by intros H. Qed.

(** The cleanup takes the pending timer away. *)
Lemma run_cleanup_tracked s :
  tracked s = true →
  run_cleanup s
  = mkSched (app s) (clock s) [] (next_timer s) (saveTimeout s) (mounted s) (fired s).
Proof.
  intros Ht. apply tracked_inv in Ht.
  destruct s as [a c ts n st m k]. simpl in *.
  unfold run_cleanup, clearTimeout. simpl.
  destruct Ht as [-> | (id & tm & -> & ->)]; [by destruct st|].
  by rewrite clear_only_timer.
Qed.

Lemma commit_render_returns s :
  tracked s = true → render (ui (app s)) = Normal () →
  commit_render s
  = mkSched (app s) (clock s)
      [(next_timer s, mkTimer (clock s + 500) (ui (app s)))]
      (S (next_timer s)) (Some (next_timer s)) (mounted s) (fired s).
Proof.
  intros Ht Hr. unfold commit_render. rewrite Hr.
  by rewrite (run_cleanup_tracked s Ht).
Qed.

Lemma commit_render_throws s e :
  tracked s = true → render (ui (app s)) = Throw e →
  commit_render s
  = mkSched (app s) (clock s) [] (next_timer s) None false (fired s).
Proof.
  intros Ht Hr. unfold commit_render, unmount. rewrite Hr.
  by rewrite (run_cleanup_tracked s Ht).
Qed.

Lemma mutate_returns f s :
  tracked s = true → mounted s = true → render (f (ui (app s))) = Normal () →
  mutate f s
  = mkSched (update_ui f (app s)) (clock s)
      [(next_timer s, mkTimer (clock s + 500) (f (ui (app s))))]
      (S (next_timer s)) (Some (next_timer s)) true (fired s).
Proof.
  intros Ht Hm Hr. unfold mutate. rewrite Hm.
  by rewrite commit_render_returns.
Qed.

Lemma mutate_throws f s e :
  tracked s = true → mounted s = true → render (f (ui (app s))) = Throw e →
  mutate f s
  = mkSched (update_ui f (app s)) (clock s) [] (next_timer s) None false (fired s).
Proof.
  intros Ht Hm Hr. unfold mutate. rewrite Hm.
  by rewrite (commit_render_throws _ e).
Qed.

Lemma mutate_armed f s :
  tracked s = true → mounted s = true → render (f (ui (app s))) = Normal () →
  armed (mutate f s).
Proof.
  intros Ht Hm Hr. rewrite mutate_returns by done.
  split; [done|]. by eexists.
Qed.

Lemma armed_tracked s : armed s → tracked s = true.
Proof.
  intros (_ & id & Hs & Ht). unfold tracked. rewrite Ht, Hs. apply Nat.eqb_refl.
Qed.

Lemma elapse_armed_early dt s :
  armed s → 0 ≤ dt < 500 →
  elapse dt s
  = mkSched (app s) (clock s + dt) (timers s) (next_timer s) (saveTimeout s)
      (mounted s) (fired s).
Proof.
  intros (_ & id & _ & Ht) Hdt. unfold elapse. rewrite Ht.
  rewrite !filter_cons, decide_False, decide_True by (simpl; lia). done.
Qed.

Lemma elapse_armed_late dt s :
  armed s → 500 ≤ dt →
  elapse dt s
  = mkSched (saveAppState (ui (app s)) (app s)).2 (clock s + dt) []
      (next_timer s) (saveTimeout s) (mounted s) (S (fired s)).
Proof.
  intros (_ & id & _ & Ht) Hdt. unfold elapse. rewrite Ht.
  rewrite !filter_cons, decide_True, decide_False by (simpl; lia). done.
Qed.

Lemma burst_quiet events : ∀ s,
  armed s →
  Forall (λ ev, 0 ≤ ev.1 < 500) events →
  renders_through events (ui (app s)) = true →
  armed (burst events s) ∧
  fired (burst events s) = fired s ∧
  ui (app (burst events s)) = apply_all events (ui (app s)) ∧
  localStorage (app (burst events s)) = localStorage (app s) ∧
  console (app (burst events s)) = console (app s).
Proof.
  induction events as [|[dt f] events IH]; intros s Ha Hev Hre; [done|].
  apply Forall_cons in Hev as [Hdt Hev]. simpl in Hdt, Hre.
  destruct (render (f (ui (app s)))) as [[]|] eqn:Hr; [|done].
  simpl. rewrite (elapse_armed_early dt s Ha Hdt).
  destruct Ha as (Hm & id & Hs & Hts).
  set (s' := mkSched (app s) (clock s + dt) (timers s) (next_timer s)
               (saveTimeout s) (mounted s) (fired s)).
  assert (Ht' : tracked s' = true).
  { unfold tracked. simpl. by rewrite Hts, Hs, Nat.eqb_refl. }
  pose proof (mutate_returns f s' Ht' Hm Hr) as Hmut.
  destruct (IH (mutate f s') (mutate_armed f s' Ht' Hm Hr) Hev)
    as (H1 & H2 & H3 & H4 & H5); [by rewrite Hmut|].
  split; [exact H1|]. rewrite H2, H3, H4, H5, Hmut. done.
Qed.

(** C9. On a mounted page whose only pending timer, if any, is the one
    of the save effect, take a mutation followed by any number of further
    mutations, each less than 500 ms after the previous one and each
    followed by a render that returns. While they last no save runs and the
    store is untouched; after the last one a single timer is pending, set by
    the last render for 500 ms later on the cells of that render: the
    cleanup of the effect has cleared the timer of every earlier render.
    Once 500 ms pass without a mutation exactly one timer callback has run,
    it was [saveAppState] on the cells left by the last mutation, no timer
    is pending, and when that save succeeds the store holds its text under
    the primary key. *)
Theorem debounce_single_write (s : Sched) (f : State → State)
    (rest : list (Z * (State → State))) (quiet : Z) :
  tracked s = true →
  mounted s = true →
  renders_through ((0, f) :: rest) (ui (app s)) = true →
  Forall (λ ev, 0 ≤ ev.1 < 500) rest →
  500 ≤ quiet →
  let settled := burst rest (mutate f s) in
  let final := elapse quiet settled in
  fired settled = fired s ∧
  localStorage (app settled) = localStorage (app s) ∧
  ui (app settled) = apply_all rest (f (ui (app s))) ∧
  (∃ id, timers settled = [(id, mkTimer (clock settled + 500) (ui (app settled)))]) ∧
  fired final = S (fired s) ∧
  timers final = [] ∧
  app final = (saveAppState (ui (app settled)) (app settled)).2 ∧
  ui (app final) = apply_all rest (f (ui (app s))) ∧
  (∀ text,
     JSON_stringify
       (VObj [("gap", gap (ui (app settled)));
              ("amplitude", amplitude (ui (app settled)));
              ("speed", speed (ui (app settled)));
              ("dotColor", dotColor (ui (app settled)));
              ("notes", notes (ui (app settled)))]%string) = Normal text →
     accepts (localStorage (app s)) APP_STATE_KEY text = true →
     items (localStorage (app final))
       = <[APP_STATE_KEY := text]> (items (localStorage (app s))) ∧
     console (app final) = console (app s)).
Proof.
  intros Ht Hm Hre Hev Hq settled final. simpl in Hre.
  destruct (render (f (ui (app s)))) as [[]|] eqn:Hr; [|done].
  pose proof (mutate_armed f s Ht Hm Hr) as Ha0.
  pose proof (mutate_returns f s Ht Hm Hr) as Hmut.
  destruct (burst_quiet rest (mutate f s) Ha0 Hev) as (Ha & Hf & Hu & Hl & Hc);
    [by rewrite Hmut|].
  fold settled in Ha, Hf, Hu, Hl, Hc.
  rewrite Hmut in Hf, Hu, Hl, Hc. simpl in Hf, Hu, Hl, Hc.
  unfold final. rewrite (elapse_armed_late quiet settled Ha Hq). simpl.
  destruct Ha as (Hms & id & Hs & Hts).
  split; [done|]. split; [done|]. split; [done|]. split; [by exists id|].
  split; [by rewrite Hf|]. split; [done|]. split; [done|].
  rewrite saveAppState_run. unfold appState_of.
  split.
  - by destruct (JSON_stringify _ ≫= setItem (localStorage (app settled)) APP_STATE_KEY).
  - intros text Hs' Hacc. rewrite Hs'. simpl. unfold setItem.
    rewrite Hl, Hacc. simpl. by rewrite Hc.
Qed.
End Debounce.

(** Timers are independent of one another: two timers that were set and
    not cleared both run, so without the cleanup of the effect two
    mutations would be written twice. *)
Example uncleared_timers_both_run :
  fired (elapse (codec := RefCodec.codec) 500
           (setTimeout (with_gap (VNum (of_Z 50)) (initial_state Sample.today)) 500
              (setTimeout (with_gap (VNum (of_Z 45)) (initial_state Sample.today)) 500
                 Sample.idle).2).2) = 2%nat.
Proof. by vm_compute. Qed.

(** The initial cells can be rendered. *)
Lemma initial_state_renders today : render (initial_state today) = Normal ().
Proof. reflexivity. Qed.

Lemma debounce_single_write_witness :
  fired (burst (codec := RefCodec.codec) Sample.gap_changes
           (mutate (with_gap (VNum (of_Z 45))) Sample.idle)) = 0%nat ∧
  fired (elapse (codec := RefCodec.codec) 500
           (burst (codec := RefCodec.codec) Sample.gap_changes
              (mutate (with_gap (VNum (of_Z 45))) Sample.idle))) = 1%nat ∧
  timers (elapse (codec := RefCodec.codec) 500
            (burst (codec := RefCodec.codec) Sample.gap_changes
               (mutate (with_gap (VNum (of_Z 45))) Sample.idle))) = [] ∧
  gap (ui (app (elapse (codec := RefCodec.codec) 500
                  (burst (codec := RefCodec.codec) Sample.gap_changes
                     (mutate (with_gap (VNum (of_Z 45))) Sample.idle)))))
    = VNum (of_Z 55).
Proof.
  destruct (debounce_single_write (codec := RefCodec.codec) Sample.idle
              (with_gap (VNum (of_Z 45))) Sample.gap_changes 500)
    as (H1 & _ & _ & _ & H2 & H3 & _ & H4 & _);
    [ reflexivity | reflexivity | by vm_compute
    | repeat constructor; simpl; lia | lia | ].
  split; [exact H1|]. split; [exact H2|]. split; [exact H3|].
  rewrite H4. reflexivity.
Defined.

(** * Further properties of the page's logic *)

(** ** The clamp, case by case *)

Ltac pos_cases a b :=
  let H := fresh "H" in
  pose proof (Pos.compare_spec a b) as H;
  change (a ?= b)%positive with (PosDef.Pos.compare_cont Eq a b) in H;
  destruct H.

Lemma SFcompare_Eq_inv x y :
  SFcompare x y = Some Eq → x = y ∨ (isZero x = true ∧ isZero y = true).
Proof.
  destruct x as [sx|sx| |sx mx ex], y as [sy|sy| |sy my ey]; simpl; try done;
    try (by destruct sx); try (by destruct sy); try (by destruct sx, sy; auto).
  destruct sx, sy; try done;
    destruct (Z.compare_spec ex ey); try done;
    pos_cases mx my; try done; subst; auto.
Qed.

Lemma SFcompare_lt_trans x y z :
  SFleb x y = true → SFltb y z = true → SFltb x z = true.
Proof.
  unfold SFleb, SFltb.
  destruct x as [sx|sx| |sx mx ex], y as [sy|sy| |sy my ey],
           z as [sz|sz| |sz mz ez]; simpl; try done;
    try (by destruct sx); try (by destruct sy); try (by destruct sz);
    try (by destruct sx, sy); try (by destruct sx, sz); try (by destruct sy, sz);
    try (by destruct sx, sy, sz).
  destruct sx, sy, sz; try done;
    destruct (Z.compare_spec ex ey); try done;
    destruct (Z.compare_spec ey ez); try done;
    destruct (Z.compare_spec ex ez); try lia; try done;
    pos_cases mx my; try done;
    pos_cases my mz; try done;
    pos_cases mx mz; try lia; try done.
Qed.

Lemma SFltb_flip x y : SFltb x y = true → SFcompare y x = Some Gt.
Proof.
  unfold SFltb. destruct (SFcompare x y) as [[]|] eqn:Hc; try done.
  intros _. by apply SFcompare_antisym in Hc.
Qed.

Lemma SFleb_flip x y :
  SFleb x y = true → SFcompare y x = Some Gt ∨ SFcompare y x = Some Eq.
Proof.
  unfold SFleb. destruct (SFcompare x y) as [[]|] eqn:Hc; try done;
    intros _; apply SFcompare_antisym in Hc; auto.
Qed.

Lemma SFleb_cases x y :
  SFleb x y = true → SFcompare x y = Some Lt ∨ SFcompare x y = Some Eq.
Proof. unfold SFleb. destruct (SFcompare x y) as [[]|]; auto; done. Qed.

(** X9. With bounds that are ordered and not zero, the value handed to the
    setter is the lower bound when the sum is below it, the upper bound when
    the sum is above it, and the sum itself when it lies between them. *)
Theorem incrementValue_cases (value increment lo hi : number) :
  SFleb lo hi = true → isZero lo = false → isZero hi = false →
  (SFltb (add value increment) lo = true →
     incrementValue value increment lo hi = lo) ∧
  (SFltb hi (add value increment) = true →
     incrementValue value increment lo hi = hi) ∧
  (within lo hi (add value increment) = true →
     incrementValue value increment lo hi = add value increment).
Proof.
  intros Hle Hlo Hhi. unfold incrementValue, within.
  set (s := add value increment). repeat split.
  - intros Hs. unfold Math_max. rewrite (SFltb_flip _ _ Hs).
    unfold Math_min. destruct (SFleb_flip _ _ Hle) as [-> | Heq]; [done|].
    rewrite Heq. destruct (SFcompare_Eq_inv _ _ Heq) as [-> | [Hz _]];
      [by destruct (isNegZero lo) | congruence].
  - intros Hs.
    assert (Hlt : SFltb lo s = true) by (by eapply SFcompare_lt_trans).
    unfold Math_max. unfold SFltb in Hlt.
    destruct (SFcompare lo s) as [[]|]; try done.
    unfold Math_min. unfold SFltb in Hs.
    by destruct (SFcompare hi s) as [[]|].
  - intros [Hl Hh]%andb_true_iff.
    assert (Hmax : Math_max lo s = s).
    { unfold Math_max. destruct (SFleb_cases _ _ Hl) as [-> | Heq]; [done|].
      rewrite Heq. destruct (SFcompare_Eq_inv _ _ Heq) as [-> | [Hz _]];
        [by destruct (isNegZero s) | congruence]. }
    rewrite Hmax. unfold Math_min.
    destruct (SFleb_flip _ _ Hh) as [-> | Heq]; [done|].
    rewrite Heq. destruct (SFcompare_Eq_inv _ _ Heq) as [-> | [Hz _]];
      [by destruct (isNegZero s) | congruence].
Qed.

Lemma incrementValue_cases_witness :
  incrementValue (of_Z 100) (of_Z 5) GAP_MIN GAP_MAX = add (of_Z 100) (of_Z 5) ∧
  incrementValue (of_Z 12) (of_Z (-5)) GAP_MIN GAP_MAX = GAP_MIN ∧
  incrementValue (of_Z 198) (of_Z 5) GAP_MIN GAP_MAX = GAP_MAX.
Proof.
  split; [|split].
  - apply (incrementValue_cases (of_Z 100) (of_Z 5) GAP_MIN GAP_MAX); reflexivity.
  - apply (incrementValue_cases (of_Z 12) (of_Z (-5)) GAP_MIN GAP_MAX); reflexivity.
  - apply (incrementValue_cases (of_Z 198) (of_Z 5) GAP_MIN GAP_MAX); reflexivity.
Defined.

(** ** The buttons keep the settings in bounds *)

Lemma cell_within_inv lo hi v :
  cell_within lo hi v = true →
  ∃ x, v = VNum x ∧ within lo hi x = true ∧ isNaN x = false.
Proof.
  destruct v as [ | | |x| | | ]; try done. intros Hw. exists x.
  repeat split; [done|]. apply andb_true_iff in Hw as [Hl _].
  by apply SFleb_isNaN_r in Hl.
Qed.

Lemma in_bounds_inv st :
  in_bounds st = true →
  cell_within GAP_MIN GAP_MAX (gap st) = true ∧
  cell_within AMPLITUDE_MIN AMPLITUDE_MAX (amplitude st) = true ∧
  cell_within SPEED_MIN SPEED_MAX (speed st) = true.
Proof. unfold in_bounds. by intros [[??]%andb_true_iff ?]%andb_true_iff. Qed.

Lemma gap_button_keeps increment snap app :
  isFinite increment = true → in_bounds snap = true → in_bounds (ui app) = true →
  keeps_bounds snap app (stepper gap setGap increment GAP_MIN GAP_MAX).
Proof.
  intros Hfin (Hg & _)%in_bounds_inv (_ & Ha' & Hs')%in_bounds_inv.
  destruct (cell_within_inv _ _ _ Hg) as (g & Eg & _ & Ng).
  destruct (stepper_button_within gap setGap increment GAP_MIN GAP_MAX snap g)
    as (r & Hm & Hr); [apply bounds_ordered | done | by rewrite Eg | done |].
  eexists; split; [exact Hm|]. repeat split.
  unfold in_bounds. simpl. by rewrite Hr, Ha', Hs'.
Qed.

Lemma amplitude_button_keeps increment snap app :
  isFinite increment = true → in_bounds snap = true → in_bounds (ui app) = true →
  keeps_bounds snap app (stepper amplitude setAmplitude increment AMPLITUDE_MIN AMPLITUDE_MAX).
Proof.
  intros Hfin (_ & Ha & _)%in_bounds_inv (Hg' & _ & Hs')%in_bounds_inv.
  destruct (cell_within_inv _ _ _ Ha) as (a & Ea & _ & Na).
  destruct (stepper_button_within amplitude setAmplitude increment
              AMPLITUDE_MIN AMPLITUDE_MAX snap a)
    as (r & Hm & Hr); [apply bounds_ordered | done | by rewrite Ea | done |].
  eexists; split; [exact Hm|]. repeat split.
  unfold in_bounds. simpl. by rewrite Hr, Hg', Hs'.
Qed.

Lemma speed_button_keeps increment snap app :
  isFinite increment = true → in_bounds snap = true → in_bounds (ui app) = true →
  keeps_bounds snap app (stepper speed setSpeed increment SPEED_MIN SPEED_MAX).
Proof.
  intros Hfin (_ & _ & Hs)%in_bounds_inv (Hg' & Ha' & _)%in_bounds_inv.
  destruct (cell_within_inv _ _ _ Hs) as (s & Es & _ & Ns).
  destruct (stepper_button_within speed setSpeed increment SPEED_MIN SPEED_MAX snap s)
    as (r & Hm & Hr); [apply bounds_ordered | done | by rewrite Es | done |].
  eexists; split; [exact Hm|]. repeat split.
  unfold in_bounds. simpl. by rewrite Hr, Hg', Ha'.
Qed.

(** X10. When the cells of the render and of the application are in bounds,
    each of the six stepper buttons runs without an exception and leaves the
    cells in bounds; notes, colour and the store are as before. *)
Theorem stepper_buttons_keep_bounds (snap : State) (app : App) :
  in_bounds snap = true →
  in_bounds (ui app) = true →
  Forall (keeps_bounds snap app) stepper_buttons.
Proof.
  intros Hs Ha. unfold stepper_buttons.
  repeat (apply Forall_cons_2); [| | | | | | apply Forall_nil_2].
  - by apply (gap_button_keeps (of_Z (-5))).
  - by apply (gap_button_keeps (of_Z 5)).
  - by apply (amplitude_button_keeps (of_Z (-5))).
  - by apply (amplitude_button_keeps (of_Z 5)).
  - by apply (speed_button_keeps (lit (-1) (-1))).
  - by apply (speed_button_keeps (lit 1 (-1))).
Qed.

Lemma stepper_buttons_keep_bounds_witness :
  Forall (keeps_bounds (initial_state Sample.today) Sample.fresh_app) stepper_buttons.
Proof.
  apply (stepper_buttons_keep_bounds (initial_state Sample.today) Sample.fresh_app);
    reflexivity.
Defined.

(** ** Notes and the note form *)

Lemma handleDeleteNote_typed id (l : list Note.t) app :
  notes (ui app) = VArr (Note.to_val <$> l) →
  handleDeleteNote id app
  = (Normal (),
     update_ui (with_notes (VArr (Note.to_val <$> filter (λ n, Note.id n ≠ id) l))) app).
Proof.
  intros Hn. unfold handleDeleteNote, set_state_with. rewrite Hn.
  by rewrite filter_by_id_typed.
Qed.

Lemma handleAddNote_typed snap now today app (l : list Note.t) :
  blank (Draft.title (newNote snap)) = false →
  notes (ui app) = VArr (Note.to_val <$> l) →
  handleAddNote snap now today app
  = (Normal (),
     update_ui (λ st, with_showNoteForm false
                        (with_newNote (Draft.mk "" "" today)
                           (with_notes
                              (VArr (Note.to_val <$>
                                 Note.mk (timestamp_id now) (Draft.title (newNote snap))
                                   (Draft.content (newNote snap))
                                   (Draft.date (newNote snap)) :: l)) st))) app).
Proof.
  intros Hb Hn. unfold handleAddNote. rewrite truthy_trim, Hb. simpl.
  unfold mbind, M_bind, set_state_with. by rewrite Hn.
Qed.

(** X11. Adding a note and then deleting the id it received gives back the
    notes array as it was, provided no listed note carries that id. *)
Theorem add_then_delete_restores snap now today app (l : list Note.t) :
  blank (Draft.title (newNote snap)) = false →
  notes (ui app) = VArr (Note.to_val <$> l) →
  Forall (λ n, Note.id n ≠ timestamp_id now) l →
  ∃ added,
    handleAddNote snap now today app = (Normal (), added) ∧
    handleDeleteNote (timestamp_id now) added
      = (Normal (), update_ui (with_notes (notes (ui app))) added).
Proof.
  intros Hb Hn Hfresh. eexists. split; [by apply handleAddNote_typed|].
  erewrite handleDeleteNote_typed; [|reflexivity].
  rewrite filter_cons, decide_False by (by intros ?).
  by rewrite filter_keeps_all, Hn.
Qed.

Lemma update_ui_notes_twice v w app :
  update_ui (with_notes v) (update_ui (with_notes w) app) = update_ui (with_notes v) app.
Proof. reflexivity. Qed.

(** X12. On typed notes, deleting an id a second time changes nothing, and
    two deletions give the same result in either order. *)
Theorem handleDeleteNote_idempotent_commutes (a b : string) (l : list Note.t) (app : App) :
  notes (ui app) = VArr (Note.to_val <$> l) →
  handleDeleteNote a (handleDeleteNote a app).2 = (Normal (), (handleDeleteNote a app).2) ∧
  handleDeleteNote b (handleDeleteNote a app).2
    = handleDeleteNote a (handleDeleteNote b app).2.
Proof.
  intros Hn.
  rewrite !(handleDeleteNote_typed _ l app Hn). simpl.
  rewrite (handleDeleteNote_typed a (filter (λ n, Note.id n ≠ a) l)) by reflexivity.
  rewrite (handleDeleteNote_typed b (filter (λ n, Note.id n ≠ a) l)) by reflexivity.
  rewrite (handleDeleteNote_typed a (filter (λ n, Note.id n ≠ b) l)) by reflexivity.
  rewrite !update_ui_notes_twice. split.
  - do 5 f_equal.
    apply filter_keeps_all. apply Forall_forall. by intros n [? _]%list_elem_of_filter.
  - do 5 f_equal.
    rewrite !list_filter_filter. apply list_filter_iff. tauto.
Qed.

Lemma handleAddNote_rejects snap now today app :
  blank (Draft.title (newNote snap)) = true →
  handleAddNote snap now today app = (Normal (), app).
Proof. intros Hb. unfold handleAddNote. by rewrite truthy_trim, Hb. Qed.

(** X13. After a note was added the form is empty: submitting again from
    the new render adds nothing and changes nothing. *)
Theorem second_submit_rejected snap now today app prior now' today' :
  blank (Draft.title (newNote snap)) = false →
  notes (ui app) = VArr prior →
  let added := (handleAddNote snap now today app).2 in
  notes (ui added)
    = VArr (VObj [("title", VStr (Draft.title (newNote snap)));
                  ("content", VStr (Draft.content (newNote snap)));
                  ("date", VStr (Draft.date (newNote snap)));
                  ("id", VStr (timestamp_id now))]%string :: prior) ∧
  handleAddNote (ui added) now' today' added = (Normal (), added).
Proof.
  intros Hb Hn added.
  assert (Hrun : added = update_ui (λ st, with_showNoteForm false
              (with_newNote (Draft.mk "" "" today)
                 (with_notes (VArr (VObj [("title", VStr (Draft.title (newNote snap)));
                  ("content", VStr (Draft.content (newNote snap)));
                  ("date", VStr (Draft.date (newNote snap)));
                  ("id", VStr (timestamp_id now))]%string :: prior)) st))) app).
  { unfold added, handleAddNote. rewrite truthy_trim, Hb. simpl.
    unfold mbind, M_bind, set_state_with. by rewrite Hn. }
  split; [by rewrite Hrun|].
  apply handleAddNote_rejects. by rewrite Hrun.
Qed.




Lemma before_T_app d rest :
  before_T d = d → before_T (String.append d (String "T" rest)) = d.
Proof.
  induction d as [|c d IH]; simpl; [done|].
  destruct (Ascii.eqb c "T"); [done|]. intros [= Hd]. by rewrite IH.
Qed.

(** X15. Typing a title, typing a content and picking a date, each handled
    in the render the previous one produced, leave the draft holding the
    three values, in this order as in the reverse one; the date kept is the
    part of the ISO text before its T, picking a date closes the calendar,
    the persisted cells are untouched, and an undefined date changes
    nothing. *)
Theorem form_edits_compose (snap : State) (t c day clock : string) (p : Page) :
  ui (core p) = snap →
  before_T day = day →
  let iso := String.append day (String "T" clock) in
  let typed_title := (on_core (onTitleChange snap t) p).2 in
  let typed_content :=
    (on_core (onContentChange (ui (core typed_title)) c) typed_title).2 in
  let dated := (handleDateSelect (ui (core typed_content)) (Some iso) typed_content).2 in
  let dated_first := (handleDateSelect snap (Some iso) p).2 in
  let content_second :=
    (on_core (onContentChange (ui (core dated_first)) c) dated_first).2 in
  let title_last :=
    (on_core (onTitleChange (ui (core content_second)) t) content_second).2 in
  newNote (ui (core dated)) = Draft.mk t c day ∧
  dated = title_last ∧
  calendarOpen (chrome dated) = false ∧
  appState_of (ui (core dated)) = appState_of snap ∧
  handleDateSelect (ui (core dated)) None dated = (Normal (), dated).
Proof.
  intros Hs Hday. simpl. rewrite (before_T_app day clock Hday).
  destruct p as [ch [st ls log]]. simpl in *. subst st. done.
Qed.

Lemma add_then_delete_restores_witness :
  ∃ added,
    handleAddNote Sample.form_state 1700000000123 Sample.today Sample.noted_app
      = (Normal (), added) ∧
    handleDeleteNote "1700000000123" added
      = (Normal (), update_ui (with_notes (notes (ui Sample.noted_app))) added).
Proof.
  apply (add_then_delete_restores Sample.form_state 1700000000123 Sample.today
           Sample.noted_app [Sample.old_note]);
    [ reflexivity | reflexivity | repeat constructor; by vm_compute ].
Defined.

Lemma handleDeleteNote_idempotent_commutes_witness :
  handleDeleteNote "1700000000000" (handleDeleteNote "1700000000000" Sample.noted_app).2
  = (Normal (), (handleDeleteNote "1700000000000" Sample.noted_app).2).
Proof.
  exact (proj1 (handleDeleteNote_idempotent_commutes "1700000000000" "7"
                  [Sample.old_note] Sample.noted_app eq_refl)).
Defined.

Lemma second_submit_rejected_witness :
  handleAddNote
    (ui (handleAddNote Sample.form_state 1700000000123 Sample.today Sample.noted_app).2)
    1700000000456 Sample.today
    (handleAddNote Sample.form_state 1700000000123 Sample.today Sample.noted_app).2
  = (Normal (),
     (handleAddNote Sample.form_state 1700000000123 Sample.today Sample.noted_app).2).
Proof.
  refine (proj2 (second_submit_rejected Sample.form_state 1700000000123 Sample.today
            Sample.noted_app [Note.to_val Sample.old_note] 1700000000456 Sample.today
            _ _)); reflexivity.
Defined.

Lemma form_edits_compose_witness :
  newNote (ui (core
    (handleDateSelect
       (ui (core (on_core (onContentChange
          (ui (core (on_core (onTitleChange (initial_state Sample.today) "Session 2")
                       Cases.page).2)) "notes")
          (on_core (onTitleChange (initial_state Sample.today) "Session 2") Cases.page).2).2))
       (Some "2024-06-01T10:30:00.000Z")
       (on_core (onContentChange
          (ui (core (on_core (onTitleChange (initial_state Sample.today) "Session 2")
                       Cases.page).2)) "notes")
          (on_core (onTitleChange (initial_state Sample.today) "Session 2") Cases.page).2).2).2))
  = Draft.mk "Session 2" "notes" "2024-06-01".
Proof.
  refine (proj1 (form_edits_compose (initial_state Sample.today) "Session 2" "notes"
            "2024-06-01" "10:30:00.000Z" Cases.page _ _)); reflexivity.
Defined.

(** ** More on saving and loading *)

Section MorePersistence.
Context `{codec : JSON}.

Lemma loadOnMount_run app :
  loadOnMount app =
    match loadAppState app with
    | (Normal true, loaded) => (Normal (), loaded)
    | (Normal false, failed) =>
        match getItem (localStorage failed) NOTES_KEY with
        | Throw e => (Throw e, failed)
        | Normal None => (Normal (), failed)
        | Normal (Some text) =>
            if truthy_string text then
              match JSON_parse text with
              | Normal v => (Normal (), update_ui (with_notes v) failed)
              | Throw e => (Throw e, failed)
              end
            else (Normal (), failed)
        end
    | (Throw e, failed) => (Throw e, failed)
    end.
Proof.
  unfold loadOnMount, mbind at 1, M_bind at 1.
  destruct (loadAppState app) as [[[]|e] a1]; simpl; try done.
  unfold mbind, M_bind, localStorage_getItem, lift, setNotes, set_state, mret, M_ret.
  destruct (getItem (localStorage a1) NOTES_KEY) as [[text|]|e]; simpl; try done.
  destruct (truthy_string text); simpl; [|done].
  by destruct (JSON_parse text).
Qed.

(** X1. Once a save has written its record, saving the same cells again
    leaves the application exactly as it is. *)
Theorem saveAppState_idempotent snap app text :
  JSON_stringify (appState_of snap) = Normal text →
  accepts (localStorage app) APP_STATE_KEY text = true →
  saveAppState snap (saveAppState snap app).2 = (Normal (), (saveAppState snap app).2).
Proof.
  intros Hs Hw. rewrite !saveAppState_run, Hs. simpl.
  unfold setItem. rewrite Hw. simpl. rewrite Hw. simpl.
  by rewrite insert_insert_eq.
Qed.

(** X2. [saveAppState] changes no record other than the primary one (the
    legacy notes record among them), and it never removes the primary
    record. *)
Theorem saveAppState_other_keys snap app key :
  key ≠ APP_STATE_KEY →
  items (localStorage (saveAppState snap app).2) !! key = items (localStorage app) !! key ∧
  (is_Some (items (localStorage app) !! APP_STATE_KEY) →
   is_Some (items (localStorage (saveAppState snap app).2) !! APP_STATE_KEY)).
Proof.
  intros Hk. rewrite saveAppState_run.
  destruct (JSON_stringify (appState_of snap)) as [text|e]; simpl; [|done].
  unfold setItem. destruct (accepts (localStorage app) APP_STATE_KEY text); simpl; [|done].
  split; [by rewrite lookup_insert_ne|]. intros _. rewrite lookup_insert_eq. by eexists.
Qed.

(** X3. [loadAppState] never throws and never changes the store; when it
    returns [false] the cells are as before, when it returns [true] nothing
    was logged. *)
Theorem loadAppState_safe app :
  ∃ b loaded,
    loadAppState app = (Normal b, loaded) ∧
    localStorage loaded = localStorage app ∧
    (if b then console loaded = console app else ui loaded = ui app).
Proof.
  rewrite loadAppState_run.
  destruct (getItem (localStorage app) APP_STATE_KEY) as [[text|]|e]; simpl;
    [| by eexists false, _ | by eexists false, _].
  destruct (truthy_string text); [|by eexists false, _].
  destruct (JSON_parse text) as [[]|e]; simpl;
    try (by eexists false, _); by eexists true, _.
Qed.

Lemma loadOnMount_shape (ls : Storage) :
  ∃ h : State → State,
    (∀ st, h (h st) = h st) ∧
    ∀ a, localStorage a = ls →
         ui (loadOnMount a).2 = h (ui a) ∧ localStorage (loadOnMount a).2 = ls.
Proof.
  assert (Hlegacy : ∃ h : State → State,
    (∀ st, h (h st) = h st) ∧
    ∀ a, localStorage a = ls →
      let r := match getItem (localStorage a) NOTES_KEY with
               | Throw e => (Throw e, a)
               | Normal None => (Normal (), a)
               | Normal (Some text) =>
                   if truthy_string text then
                     match JSON_parse text with
                     | Normal v => (Normal (), update_ui (with_notes v) a)
                     | Throw e => (Throw e, a)
                     end
                   else (Normal (), a)
               end in
      ui r.2 = h (ui a) ∧ localStorage r.2 = ls).
  { destruct (getItem ls NOTES_KEY) as [[text|]|e] eqn:Hget.
    - destruct (truthy_string text) eqn:Ht.
      + destruct (JSON_parse text) as [v|e] eqn:Hp.
        * exists (with_notes v). split; [done|]. intros a <-. by rewrite Hget, Ht, Hp.
        * exists id. split; [done|]. intros a <-. by rewrite Hget, Ht, Hp.
      + exists id. split; [done|]. intros a <-. by rewrite Hget, Ht.
    - exists id. split; [done|]. intros a <-. by rewrite Hget.
    - exists id. split; [done|]. intros a <-. by rewrite Hget. }
  destruct Hlegacy as (g & Hg & Hlegacy).
  destruct (getItem ls APP_STATE_KEY) as [[text|]|e] eqn:Hget.
  - destruct (truthy_string text) eqn:Ht.
    + destruct (JSON_parse text) as [v|e] eqn:Hp.
      * destruct v as [ | |b|x|s|elems|props];
          [ exists g | exists g | exists (adopt (VBool b)) | exists (adopt (VNum x))
          | exists (adopt (VStr s)) | exists (adopt (VArr elems))
          | exists (adopt (VObj props)) ];
          (split; [done|]); intros a Ha;
          rewrite loadOnMount_run, loadAppState_run, Ha, Hget, Ht, Hp; try done;
          by destruct (Hlegacy (log_error "Error loading app state from localStorage:"
                                  TypeError a) Ha).
      * exists g. split; [done|]. intros a Ha.
        rewrite loadOnMount_run, loadAppState_run, Ha, Hget, Ht, Hp.
        by destruct (Hlegacy (log_error "Error loading app state from localStorage:"
                                e a) Ha).
    + exists g. split; [done|]. intros a Ha.
      rewrite loadOnMount_run, loadAppState_run, Ha, Hget, Ht.
      by destruct (Hlegacy a Ha).
  - exists g. split; [done|]. intros a Ha.
    rewrite loadOnMount_run, loadAppState_run, Ha, Hget.
    by destruct (Hlegacy a Ha).
  - exists g. split; [done|]. intros a Ha.
    rewrite loadOnMount_run, loadAppState_run, Ha, Hget.
    by destruct (Hlegacy (log_error "Error loading app state from localStorage:" e a) Ha).
Qed.

(** X4. Running the start-up effect a second time (as React's strict
    mode does) leaves the cells as the first run left them, and the store as
    it was. *)
Theorem loadOnMount_twice app :
  ui (loadOnMount (loadOnMount app).2).2 = ui (loadOnMount app).2 ∧
  localStorage (loadOnMount (loadOnMount app).2).2 = localStorage app.
Proof.
  destruct (loadOnMount_shape (localStorage app)) as (h & Hh & Hrun).
  destruct (Hrun app eq_refl) as [H1 H2].
  destruct (Hrun (loadOnMount app).2 H2) as [H3 H4].
  split; [|done]. by rewrite H3, H1, Hh.
Qed.


(** X6. With no primary record and a legacy record that is not valid
    JSON, the start-up effect throws the parse error (nothing catches it) and
    has changed nothing. *)
Theorem loadOnMount_bad_legacy_throws app text e :
  readable (localStorage app) = true →
  items (localStorage app) !! APP_STATE_KEY = None →
  items (localStorage app) !! NOTES_KEY = Some text →
  truthy_string text = true →
  JSON_parse text = Throw e →
  loadOnMount app = (Throw e, app).
Proof.
  intros Hr Hnone Hleg Ht Hp.
  rewrite loadOnMount_run, loadAppState_run, (getItem_readable _ _ Hr), Hnone.
  simpl. by rewrite (getItem_readable _ _ Hr), Hleg, Ht, Hp.
Qed.

(** X8. The save button shows the toast [Settings saved] whatever the
    save did: also when the write failed and the store is as before. *)
Theorem handleManualSave_always_toasts snap app :
  ∃ app',
    handleManualSave snap app
      = (Normal (), app',
         [Toast.mk "Settings saved"
            "Your settings and notes have been saved to this device."]) ∧
    app' = (saveAppState snap app).2 ∧
    match JSON_stringify (appState_of snap) ≫= setItem (localStorage app) APP_STATE_KEY with
    | Normal ls => localStorage app' = ls
    | Throw e => localStorage app' = localStorage app
    end.
Proof.
  unfold handleManualSave. rewrite saveAppState_run.
  destruct (JSON_stringify (appState_of snap) ≫= setItem (localStorage app) APP_STATE_KEY);
    by eexists.
Qed.

End MorePersistence.

(** ** A second save and load *)

Lemma toJSON_defined v : toJSON v ≠ VUndefined.
Proof. destruct v as [ | | |x| | | ]; simpl; try done. by destruct (isFinite x). Qed.

Lemma json_prop_defined k w :
  json_prop toJSON (k, toJSON w) = Some (k, toJSON (toJSON w)).
Proof.
  pose proof (toJSON_defined w). unfold json_prop.
  by destruct (toJSON w).
Qed.

Lemma json_prop_cases k w :
  json_prop toJSON (k, w) = None ∨ json_prop toJSON (k, w) = Some (k, toJSON w).
Proof. destruct w; auto. Qed.

Lemma omap_step {A B} (f : A → option B) x l :
  omap f (x :: l) = match f x with Some y => y :: omap f l | None => omap f l end.
Proof. reflexivity. Qed.

Lemma toJSON_idempotent v : toJSON (toJSON v) = toJSON v.
Proof.
  induction v as [ | |b|x|s|elems IH|props IH] using JSVal_nested_ind; try done.
  - simpl. by destruct x as [[]|[]| |].
  - simpl. f_equal. rewrite <- list_fmap_compose.
    by apply Forall_fmap_ext_1.
  - simpl. f_equal.
    induction IH as [|[k w] props Hw _ IHl]; [done|].
    simpl in Hw. rewrite (omap_step _ (k, w)).
    destruct (json_prop_cases k w) as [-> | ->]; [done|].
    by rewrite omap_step, json_prop_defined, Hw, IHl.
Qed.

Lemma reload_defined v : v ≠ VUndefined → reload v = toJSON v.
Proof. by destruct v. Qed.

Lemma reload_idempotent v : reload (reload v) = reload v.
Proof.
  destruct v as [ | |b|x|s|elems|props]; try done;
    rewrite (reload_defined (VNum x)) || rewrite (reload_defined (VArr elems))
    || rewrite (reload_defined (VObj props)); try done;
    rewrite reload_defined by apply toJSON_defined; apply toJSON_idempotent.
Qed.

Section Stable.
Context `{codec : JSON}.
Hypothesis faithful : JSON_faithful.

Lemma readopt st :
  with_notes (notes st) (with_dotColor (dotColor st) (with_speed (speed st)
    (with_amplitude (amplitude st) (with_gap (gap st) st)))) = st.
Proof. by destruct st. Qed.

(** X7. Whatever the cells hold, a save followed by a load leaves each of
    the five cells at [reload] of its content ([undefined] stays, NaN and
    the infinities become [null], -0 becomes 0); from then on a further save
    and load restores the cells exactly. *)
Theorem second_cycle_exact snap app text text' :
  JSON_stringify (appState_of snap) = Normal text →
  accepts (localStorage app) APP_STATE_KEY text = true →
  readable (localStorage app) = true →
  let loaded := (loadAppState (saveAppState snap app).2).2 in
  JSON_stringify (appState_of (ui loaded)) = Normal text' →
  accepts (localStorage loaded) APP_STATE_KEY text' = true →
  gap (ui loaded) = reload (gap snap) ∧
  amplitude (ui loaded) = reload (amplitude snap) ∧
  speed (ui loaded) = reload (speed snap) ∧
  dotColor (ui loaded) = reload (dotColor snap) ∧
  notes (ui loaded) = reload (notes snap) ∧
  loadAppState (saveAppState (ui loaded) loaded).2
    = (Normal true, (saveAppState (ui loaded) loaded).2).
Proof.
  intros Hs Hw Hr loaded.
  destruct (save_then_load faithful snap app text Hs Hw Hr) as (saved & Hsave & _ & Hload).
  assert (Hl : loaded = update_ui (λ st, with_notes (reload (notes snap))
         (with_dotColor (reload (dotColor snap))
           (with_speed (reload (speed snap))
             (with_amplitude (reload (amplitude snap))
               (with_gap (reload (gap snap)) st))))) saved).
  { unfold loaded. rewrite Hsave. simpl. by rewrite Hload. }
  intros Hs' Hw'.
  assert (Hr' : readable (localStorage loaded) = true).
  { rewrite Hl. simpl. rewrite saveAppState_run, Hs in Hsave. simpl in Hsave.
    unfold setItem in Hsave. rewrite Hw in Hsave. simpl in Hsave.
    by injection Hsave as <-. }
  destruct (save_then_load faithful (ui loaded) loaded text' Hs' Hw' Hr')
    as (saved' & Hsave' & _ & Hload').
  rewrite Hsave'. simpl. rewrite Hload'.
  assert (Hui : ui saved' = ui loaded).
  { rewrite saveAppState_run, Hs' in Hsave'. simpl in Hsave'.
    unfold setItem in Hsave'. rewrite Hw' in Hsave'. simpl in Hsave'.
    by injection Hsave' as <-. }
  rewrite Hl. simpl. repeat split.
  f_equal. destruct saved' as [st' ls' log']. simpl in Hui. subst st'.
  unfold update_ui. simpl. f_equal.
  rewrite Hl. simpl. by rewrite !reload_idempotent.
Qed.
End Stable.

(** ** More on the debounced save *)

Section MoreDebounce.
Context `{codec : JSON}.

Lemma saveAppState_ui snap a : ui (saveAppState snap a).2 = ui a.
Proof.
  rewrite saveAppState_run.
  by destruct (JSON_stringify (appState_of snap) ≫= setItem (localStorage a) APP_STATE_KEY).
Qed.

(** What [elapse] does to a scheduler with at most the effect's timer. *)
Lemma elapse_tracked_cases dt s :
  tracked s = true →
  elapse dt s
  = mkSched (app s) (clock s + dt) (timers s) (next_timer s) (saveTimeout s)
      (mounted s) (fired s)
  ∨ ∃ id tm, timers s = [(id, tm)] ∧
      elapse dt s
      = mkSched (saveAppState (closure tm) (app s)).2 (clock s + dt) []
          (next_timer s) (saveTimeout s) (mounted s) (S (fired s)).
Proof.
  intros [Ht | (id & tm & Ht & Hs)]%tracked_inv; unfold elapse; rewrite Ht.
  - by left.
  - rewrite !filter_cons. simpl.
    destruct (decide (deadline tm ≤ clock s + dt)) as [Hd|Hd].
    + right. exists id, tm. rewrite decide_False by tauto. done.
    + left. rewrite decide_True by done. done.
Qed.

Lemma elapse_tracked dt s : tracked s = true → tracked (elapse dt s) = true.
Proof.
  intros Ht.
  destruct (elapse_tracked_cases dt s Ht) as [-> | (id & tm & _ & ->)]; done.
Qed.

Lemma elapse_mounted dt s : mounted (elapse dt s) = mounted s.
Proof. reflexivity. Qed.

Lemma elapse_ui dt s : tracked s = true → ui (app (elapse dt s)) = ui (app s).
Proof.
  intros Ht.
  destruct (elapse_tracked_cases dt s Ht) as [-> | (id & tm & _ & ->)]; [done|].
  apply saveAppState_ui.
Qed.

Lemma elapse_fired dt s :
  tracked s = true → (fired s ≤ fired (elapse dt s) ≤ S (fired s))%nat.
Proof.
  intros Ht.
  destruct (elapse_tracked_cases dt s Ht) as [-> | (id & tm & _ & ->)]; simpl; lia.
Qed.

Lemma elapse_up_to_date dt s :
  tracked s = true → up_to_date s → up_to_date (elapse dt s).
Proof.
  intros Ht Hs.
  by destruct (elapse_tracked_cases dt s Ht) as [-> | (id & tm & _ & ->)].
Qed.

(** What [mutate] does to such a scheduler. *)
Lemma mutate_tracked_cases f s :
  tracked s = true →
  mutate f s = s ∧ mounted s = false
  ∨ mounted s = true ∧
    (mutate f s
     = mkSched (update_ui f (app s)) (clock s)
         [(next_timer s, mkTimer (clock s + 500) (f (ui (app s))))]
         (S (next_timer s)) (Some (next_timer s)) true (fired s)
     ∨ mutate f s
       = mkSched (update_ui f (app s)) (clock s) [] (next_timer s) None false
           (fired s)).
Proof.
  intros Ht. destruct (mounted s) eqn:Hm.
  - right. split; [done|].
    destruct (render (f (ui (app s)))) as [[]|e] eqn:Hr.
    + left. by apply mutate_returns.
    + right. by apply (mutate_throws f s e).
  - left. unfold mutate. by rewrite Hm.
Qed.

Lemma mutate_tracked f s : tracked s = true → tracked (mutate f s) = true.
Proof.
  intros Ht.
  destruct (mutate_tracked_cases f s Ht) as [[-> _] | [_ [-> | ->]]];
    [done | | done].
  unfold tracked. simpl. apply Nat.eqb_refl.
Qed.

Lemma mutate_up_to_date f s :
  tracked s = true → up_to_date s → up_to_date (mutate f s).
Proof.
  intros Ht Hs.
  by destruct (mutate_tracked_cases f s Ht) as [[-> _] | [_ [-> | ->]]].
Qed.

Lemma mutate_fired f s : tracked s = true → fired (mutate f s) = fired s.
Proof.
  intros Ht.
  by destruct (mutate_tracked_cases f s Ht) as [[-> _] | [_ [-> | ->]]].
Qed.

Lemma burst_cells events : ∀ s,
  tracked s = true → mounted s = true →
  renders_through events (ui (app s)) = true →
  ui (app (burst events s)) = apply_all events (ui (app s)).
Proof.
  induction events as [|[dt f] events IH]; intros s Ht Hm Hre; [done|].
  simpl in Hre. destruct (render (f (ui (app s)))) as [[]|] eqn:Hr; [|done].
  pose proof (elapse_tracked dt s Ht) as Ht'.
  pose proof (elapse_ui dt s Ht) as Hu.
  assert (Hr' : render (f (ui (app (elapse dt s)))) = Normal ()) by (by rewrite Hu).
  pose proof (mutate_returns f (elapse dt s) Ht' Hm Hr') as Hmut.
  assert (Hcells : ui (app (mutate f (elapse dt s))) = f (ui (app s))).
  { rewrite Hmut. cbn [app]. unfold update_ui. cbn [ui]. by rewrite Hu. }
  cbn [burst]. rewrite IH.
  - by rewrite Hcells.
  - by apply mutate_tracked.
  - by rewrite Hmut.
  - by rewrite Hcells.
Qed.

(** X16. Whatever the times of the mutations and whether or not their
    renders return, the only timer that is ever pending is the one of the
    latest render, and it carries the cells as they are: the cleanup has
    cleared every earlier one. So a timer callback saves the cells as they
    are when it runs, and there are never more callbacks than mutations.
    When all the renders return, the cells are those left by the setter
    calls. *)
Theorem timer_saves_current_cells (events : list (Z * (State → State))) : ∀ s,
  tracked s = true →
  up_to_date s →
  tracked (burst events s) = true ∧
  up_to_date (burst events s) ∧
  (length (timers (burst events s)) ≤ 1)%nat ∧
  (fired (burst events s) ≤ fired s + length events)%nat ∧
  (mounted s = true → renders_through events (ui (app s)) = true →
   ui (app (burst events s)) = apply_all events (ui (app s))) ∧
  ∀ dt, app (elapse dt (burst events s)) = app (burst events s) ∨
        app (elapse dt (burst events s))
          = (saveAppState (ui (app (burst events s))) (app (burst events s))).2.
Proof.
  assert (Hfire : ∀ s dt, tracked s = true → up_to_date s →
    app (elapse dt s) = app s ∨
    app (elapse dt s) = (saveAppState (ui (app s)) (app s)).2).
  { intros s dt Ht Hs.
    destruct (elapse_tracked_cases dt s Ht) as [-> | (id & tm & Hts & ->)];
      [by left|].
    right. simpl. unfold up_to_date in Hs. rewrite Hts in Hs.
    injection Hs as Hs. by rewrite <- Hs. }
  assert (Hone : ∀ s, tracked s = true → (length (timers s) ≤ 1)%nat).
  { intros s [-> | (id & tm & -> & _)]%tracked_inv; simpl; lia. }
  induction events as [|[dt f] events IH]; intros s Ht Hs.
  - simpl. split; [done|]. split; [done|]. split; [by apply Hone|].
    split; [lia|]. split; [done|]. intros dt. by apply Hfire.
  - pose proof (elapse_tracked dt s Ht) as Ht1.
    pose proof (elapse_up_to_date dt s Ht Hs) as Hs1.
    destruct (IH (mutate f (elapse dt s)) (mutate_tracked f _ Ht1)
                (mutate_up_to_date f _ Ht1 Hs1)) as (H1 & H2 & H3 & H4 & _ & H6).
    cbn [burst]. split; [done|]. split; [done|]. split; [done|].
    split; [|split; [|done]].
    + pose proof (elapse_fired dt s Ht). rewrite mutate_fired in H4 by done.
      simpl. lia.
    + intros Hm Hre. by apply (burst_cells ((dt, f) :: events)).
Qed.

Lemma burst_spaced events : ∀ s,
  armed s →
  Forall (λ ev, 500 ≤ ev.1) events →
  renders_through events (ui (app s)) = true →
  armed (burst events s) ∧
  fired (burst events s) = (fired s + length events)%nat.
Proof.
  induction events as [|[dt f] events IH]; intros s Ha Hev Hre;
    [by rewrite Nat.add_0_r|].
  apply Forall_cons in Hev as [Hdt Hev]. simpl in Hdt, Hre.
  destruct (render (f (ui (app s)))) as [[]|] eqn:Hr; [|done].
  cbn [burst]. rewrite (elapse_armed_late dt s Ha Hdt).
  destruct Ha as (Hm & id & Hs & Hts).
  set (s' := mkSched (saveAppState (ui (app s)) (app s)).2 (clock s + dt) []
               (next_timer s) (saveTimeout s) (mounted s) (S (fired s))).
  assert (Hr' : render (f (ui (app s'))) = Normal ()).
  { simpl. by rewrite saveAppState_ui. }
  pose proof (mutate_returns f s' eq_refl Hm Hr') as Hmut.
  destruct (IH (mutate f s') (mutate_armed f s' eq_refl Hm Hr') Hev) as [H1 H2].
  { rewrite Hmut. simpl. by rewrite saveAppState_ui. }
  split; [exact H1|]. rewrite H2, Hmut. simpl. lia.
Qed.

(** X17. On a mounted page with at most the effect's timer pending,
    mutations that are each at least 500 ms after the previous one, their
    renders returning, are saved one by one: as many timer callbacks run as
    there are mutations. *)
Theorem spaced_mutations_each_write (s : Sched) (f : State → State)
    (rest : list (Z * (State → State))) (quiet : Z) :
  tracked s = true →
  mounted s = true →
  renders_through ((0, f) :: rest) (ui (app s)) = true →
  Forall (λ ev, 500 ≤ ev.1) rest →
  500 ≤ quiet →
  fired (elapse quiet (burst rest (mutate f s))) = (fired s + S (length rest))%nat.
Proof.
  intros Ht Hm Hre Hev Hq. simpl in Hre.
  destruct (render (f (ui (app s)))) as [[]|] eqn:Hr; [|done].
  pose proof (mutate_returns f s Ht Hm Hr) as Hmut.
  destruct (burst_spaced rest (mutate f s) (mutate_armed f s Ht Hm Hr) Hev)
    as [Ha Hf]; [by rewrite Hmut|].
  rewrite (elapse_armed_late quiet _ Ha Hq). simpl. rewrite Hf, Hmut. simpl. lia.
Qed.

(** X18. When the component goes away less than 500 ms after a mutation,
    the cleanup clears the timer and the mutation is never written, however
    long one waits. *)
Theorem unmount_drops_pending_save (s : Sched) (f : State → State) (dt later : Z) :
  tracked s = true →
  mounted s = true →
  0 ≤ dt < 500 →
  let gone := elapse later (unmount (elapse dt (mutate f s))) in
  fired gone = fired s ∧
  localStorage (app gone) = localStorage (app s) ∧
  console (app gone) = console (app s) ∧
  ui (app gone) = f (ui (app s)).
Proof.
  intros Ht Hm Hdt.
  destruct (render (f (ui (app s)))) as [[]|e] eqn:Hr.
  - rewrite (elapse_armed_early dt _ (mutate_armed f s Ht Hm Hr) Hdt).
    rewrite (mutate_returns f s Ht Hm Hr). simpl.
    unfold unmount, run_cleanup, elapse. simpl. rewrite clear_only_timer. done.
  - rewrite (mutate_throws f s e Ht Hm Hr). done.
Qed.

Lemma mount_returns today ls log t0 loaded :
  loadOnMount (mkApp (initial_state today) ls log) = (Normal (), loaded) →
  render (ui loaded) = Normal () →
  mount today ls log t0
  = (Normal (),
     mkSched loaded t0 [(1%nat, mkTimer (t0 + 500) (ui loaded))] 2 (Some 1%nat) true 0).
Proof.
  intros Hl Hr. unfold mount. simpl. rewrite Hl, Hr.
  by rewrite commit_render_returns.
Qed.

(** X19. When the start-up effect returns normally and the cells it
    left can be rendered, the page is mounted with one timer pending, on
    those cells (the timer of the first render, which held the initial
    cells, has been cleared), and the first 500 quiet milliseconds end with
    one save of these cells, without any action of the user. *)
Theorem mount_then_quiet (today : string) (ls : Storage) (log : list (string * Exn))
    (t0 : Z) (loaded : App) (quiet : Z) :
  loadOnMount (mkApp (initial_state today) ls log) = (Normal (), loaded) →
  render (ui loaded) = Normal () →
  500 ≤ quiet →
  ∃ page,
    mount today ls log t0 = (Normal (), page) ∧
    app page = loaded ∧
    (∃ id, timers page = [(id, mkTimer (t0 + 500) (ui loaded))]) ∧
    fired page = 0%nat ∧
    fired (elapse quiet page) = 1%nat ∧
    timers (elapse quiet page) = [] ∧
    app (elapse quiet page) = (saveAppState (ui loaded) loaded).2.
Proof.
  intros Hl Hr Hq. rewrite (mount_returns today ls log t0 loaded Hl Hr).
  set (page := mkSched loaded t0 [(1%nat, mkTimer (t0 + 500) (ui loaded))] 2
                 (Some 1%nat) true 0).
  assert (Ha : armed page) by (split; [done|by eexists]).
  exists page. split; [done|]. split; [done|]. split; [by eexists|].
  split; [done|]. by rewrite (elapse_armed_late quiet page Ha Hq).
Qed.

(** X21. When the start-up effect has put in the cells a content that
    the component cannot render (a speed that is not a number, notes that
    are not an array), the render that follows throws and the component is
    taken down: the timer of the first render is cleared, no save ever runs,
    and the store keeps the record as it is. *)
Theorem unrenderable_record_is_never_saved (today : string) (ls : Storage)
    (log : list (string * Exn)) (t0 : Z) (loaded : App) (e : Exn) (later : Z) :
  loadOnMount (mkApp (initial_state today) ls log) = (Normal (), loaded) →
  render (ui loaded) = Throw e →
  ∃ gone,
    mount today ls log t0 = (Throw e, gone) ∧
    mounted gone = false ∧
    timers gone = [] ∧
    fired (elapse later gone) = 0%nat ∧
    app (elapse later gone) = loaded ∧
    localStorage (app (elapse later gone)) = ls.
Proof.
  intros Hl Hr. unfold mount. simpl. rewrite Hl, Hr.
  rewrite (commit_render_throws _ e) by done.
  eexists. split; [reflexivity|]. simpl. repeat split.
  destruct (loadOnMount_shape ls) as (h & _ & Hh).
  destruct (Hh (mkApp (initial_state today) ls log) eq_refl) as [_ Hls].
  by rewrite Hl in Hls.
Qed.
End MoreDebounce.

(** ** From the legacy record to the primary one *)

Section Migration.
Context `{codec : JSON}.
Hypothesis faithful : JSON_faithful.

(** X20. A store that holds only a legacy notes record, whose notes the
    component can render, is migrated by starting the page: 500 ms after the
    start, one save has run, the primary record holds the initial settings
    with the legacy notes, the legacy record is still there, and the next
    start loads the primary record, with the notes as they come back from
    JSON. *)
Theorem legacy_store_migrates (today next_day : string) (ls : Storage)
    (log next_log : list (string * Exn)) (t0 : Z) (text record : string)
    (legacy : JSVal) :
  readable ls = true →
  items ls !! APP_STATE_KEY = None →
  items ls !! NOTES_KEY = Some text →
  truthy_string text = true →
  JSON_parse text = Normal legacy →
  render (with_notes legacy (initial_state today)) = Normal () →
  JSON_stringify (appState_of (with_notes legacy (initial_state today))) = Normal record →
  accepts ls APP_STATE_KEY record = true →
  ∃ page,
    mount today ls log t0 = (Normal (), page) ∧
    notes (ui (app page)) = legacy ∧
    fired (elapse 500 page) = 1%nat ∧
    let stored := localStorage (app (elapse 500 page)) in
    items stored !! APP_STATE_KEY = Some record ∧
    items stored !! NOTES_KEY = Some text ∧
    loadOnMount (mkApp (initial_state next_day) stored next_log)
      = (Normal (),
         mkApp (with_notes (reload legacy) (initial_state next_day)) stored next_log).
Proof.
  intros Hr Hnone Hleg Ht Hp Hre Hs Hw.
  assert (Hload : loadOnMount (mkApp (initial_state today) ls log)
                  = (Normal (), mkApp (with_notes legacy (initial_state today)) ls log)).
  { rewrite loadOnMount_run, loadAppState_run. simpl.
    rewrite (getItem_readable _ _ Hr), Hnone. simpl.
    by rewrite (getItem_readable _ _ Hr), Hleg, Ht, Hp. }
  rewrite (mount_returns today ls log t0 _ Hload Hre).
  eexists. split; [reflexivity|].
  split; [reflexivity|].
  rewrite elapse_armed_late; [|split; [done|by eexists]|lia]. simpl.
  split; [done|].
  rewrite saveAppState_run. simpl. rewrite Hs. simpl.
  unfold setItem. simpl. rewrite Hw. simpl.
  split; [apply lookup_insert_eq|].
  split; [by rewrite lookup_insert_ne|].
  destruct (faithful _ _ Hs) as [Htr Hpr].
  set (saved := toJSON (appState_of (with_notes legacy (initial_state today)))).
  assert (Hobj : ∃ props, saved = VObj props) by (by eexists).
  change (JSON_parse record = Normal saved) in Hpr.
  rewrite loadOnMount_run, loadAppState_run. unfold getItem.
  cbn [localStorage readable items].
  rewrite Hr, lookup_insert_eq, Htr, Hpr.
  destruct Hobj as [props Hprops]. rewrite Hprops. cbn [fst snd].
  rewrite <- Hprops. unfold saved, update_ui. cbn [ui localStorage console].
  rewrite adopt_saved. reflexivity.
Qed.

End Migration.

(** ** The further properties on concrete stores *)

Lemma saveAppState_idempotent_witness :
  saveAppState (codec := RefCodec.codec) (initial_state Sample.today)
    (saveAppState (codec := RefCodec.codec) (initial_state Sample.today)
       Sample.fresh_app).2
  = (Normal (),
     (saveAppState (codec := RefCodec.codec) (initial_state Sample.today)
        Sample.fresh_app).2).
Proof.
  apply (saveAppState_idempotent (codec := RefCodec.codec) (initial_state Sample.today)
           Sample.fresh_app Cases.initial_text); reflexivity.
Defined.

Lemma saveAppState_other_keys_witness :
  items (localStorage
           (saveAppState (codec := RefCodec.codec) (initial_state Sample.today)
              (mkApp (initial_state Sample.today) Sample.legacy_storage [])).2)
    !! NOTES_KEY
  = items Sample.legacy_storage !! NOTES_KEY.
Proof.
  refine (proj1 (saveAppState_other_keys (codec := RefCodec.codec)
            (initial_state Sample.today)
            (mkApp (initial_state Sample.today) Sample.legacy_storage []) NOTES_KEY _)).
  by vm_compute.
Defined.


Lemma loadOnMount_bad_legacy_throws_witness :
  loadOnMount (codec := RefCodec.codec) Cases.broken_legacy
  = (Throw SyntaxError, Cases.broken_legacy).
Proof.
  apply (loadOnMount_bad_legacy_throws (codec := RefCodec.codec) Cases.broken_legacy
           Cases.garbage SyntaxError);
    first [ reflexivity | by vm_compute ].
Defined.

Lemma second_cycle_exact_witness :
  gap (ui (loadAppState (codec := RefCodec.codec)
             (saveAppState (codec := RefCodec.codec) Sample.nan_state
                Sample.fresh_app).2).2) = VNull.
Proof.
  refine (proj1 (second_cycle_exact (codec := RefCodec.codec)
            RefCodecFacts.codec_faithful Sample.nan_state Sample.fresh_app
            Cases.nan_text Cases.null_text _ _ _ _ _));
    first [ reflexivity | by vm_compute ].
Defined.

Lemma timer_saves_current_cells_witness :
  (length (timers (burst (codec := RefCodec.codec) Cases.slow_changes
                     (mutate (with_gap (VNum (of_Z 45))) Sample.idle)))
   ≤ 1)%nat ∧
  up_to_date (burst (codec := RefCodec.codec) Cases.slow_changes
                (mutate (with_gap (VNum (of_Z 45))) Sample.idle)).
Proof.
  destruct (timer_saves_current_cells (codec := RefCodec.codec)
              Cases.slow_changes (mutate (with_gap (VNum (of_Z 45))) Sample.idle))
    as (_ & Hu & Hl & _); [ reflexivity | reflexivity | ].
  split; [exact Hl | exact Hu].
Defined.

Lemma spaced_mutations_each_write_witness :
  fired (elapse (codec := RefCodec.codec) 500
           (burst (codec := RefCodec.codec) Cases.slow_changes
              (mutate (with_gap (VNum (of_Z 45))) Sample.idle))) = 3%nat.
Proof.
  refine (spaced_mutations_each_write (codec := RefCodec.codec) Sample.idle
            (with_gap (VNum (of_Z 45))) Cases.slow_changes 500 _ _ _ _ _);
    [ reflexivity | reflexivity | by vm_compute
    | repeat constructor; simpl; lia | lia ].
Defined.

Lemma unmount_drops_pending_save_witness :
  localStorage
    (app (elapse (codec := RefCodec.codec) 60000
            (unmount (elapse (codec := RefCodec.codec) 499
                        (mutate (with_gap (VNum (of_Z 45))) Sample.idle)))))
  = localStorage (app Sample.idle).
Proof.
  refine (proj1 (proj2 (unmount_drops_pending_save (codec := RefCodec.codec)
            Sample.idle (with_gap (VNum (of_Z 45))) 499 60000 _ _ _)));
    [ reflexivity | reflexivity | lia ].
Defined.

Lemma mount_then_quiet_witness :
  ∃ page,
    mount (codec := RefCodec.codec) Sample.today (Sample.open_storage ∅) [] 0
      = (Normal (), page) ∧
    app page = Sample.fresh_app ∧
    (∃ id, timers page = [(id, mkTimer (0 + 500) (ui Sample.fresh_app))]) ∧
    fired page = 0%nat ∧
    fired (elapse (codec := RefCodec.codec) 500 page) = 1%nat ∧
    timers (elapse (codec := RefCodec.codec) 500 page) = [] ∧
    app (elapse (codec := RefCodec.codec) 500 page)
      = (saveAppState (codec := RefCodec.codec) (ui Sample.fresh_app)
           Sample.fresh_app).2.
Proof.
  apply (mount_then_quiet (codec := RefCodec.codec) Sample.today
           (Sample.open_storage ∅) [] 0 Sample.fresh_app 500);
    [ reflexivity | reflexivity | lia ].
Defined.

Lemma unrenderable_record_is_never_saved_witness :
  speed (ui (loadOnMount (codec := RefCodec.codec) Sample.wild_app).2) = VStr "fast" ∧
  ∃ gone,
    mount (codec := RefCodec.codec) Sample.today (localStorage Sample.wild_app) [] 0
      = (Throw TypeError, gone) ∧
    mounted gone = false ∧
    timers gone = [] ∧
    fired (elapse (codec := RefCodec.codec) 60000 gone) = 0%nat ∧
    app (elapse (codec := RefCodec.codec) 60000 gone)
      = (loadOnMount (codec := RefCodec.codec) Sample.wild_app).2 ∧
    localStorage (app (elapse (codec := RefCodec.codec) 60000 gone))
      = localStorage Sample.wild_app.
Proof.
  split; [by vm_compute|].
  apply (unrenderable_record_is_never_saved (codec := RefCodec.codec) Sample.today
           (localStorage Sample.wild_app) [] 0
           (loadOnMount (codec := RefCodec.codec) Sample.wild_app).2 TypeError 60000);
    by vm_compute.
Defined.

Lemma legacy_store_migrates_witness :
  ∃ page,
    mount (codec := RefCodec.codec) Sample.today Sample.legacy_storage [] 0
      = (Normal (), page) ∧
    notes (ui (app page)) = VArr [Note.to_val Sample.old_note] ∧
    fired (elapse (codec := RefCodec.codec) 500 page) = 1%nat ∧
    items (localStorage (app (elapse (codec := RefCodec.codec) 500 page)))
      !! APP_STATE_KEY = Some Cases.migrated_text.
Proof.
  destruct (legacy_store_migrates (codec := RefCodec.codec) RefCodecFacts.codec_faithful
              Sample.today Sample.today Sample.legacy_storage [] [] 0
              Sample.legacy_text Cases.migrated_text
              (VArr [Note.to_val Sample.old_note]))
    as (page & Hm & Hn & Hf & Hp & _);
    [ reflexivity | by vm_compute | by vm_compute | reflexivity
    | by vm_compute | reflexivity | reflexivity | reflexivity | ].
  exists page. split; [exact Hm|]. split; [exact Hn|]. split; [exact Hf | exact Hp].
Defined.

